(** * vscode-anycode: the client-side activation layer

    A shallow embedding of [src/supportedLanguages.ts] (the language
    registry) and of [anycode/client/src/common/client.ts] (server
    supervisor, workspace initializer and the [file/read] provider),
    together with the properties the specification states about them.

    JavaScript values that reach a truthiness test are kept as [jsval];
    host calls (the [vscode] API) are fields of explicit environment
    records, a call that may throw returns a [completion]. *)

From stdpp Require Import base option list gmap sets strings pretty.
From Stdlib Require Import ZArith Lia Strings.Byte.

Local Open Scope string_scope.
Local Open Scope Z_scope.

(** ** JavaScript values and completions *)

Inductive jsval : Type :=
| JUndefined
| JNull
| JBool (b : bool)
| JNum (n : Z)
| JStr (s : string)
| JObj.

(** [ToBoolean]: what [if (v)] and [!v] look at. *)
Definition truthy (v : jsval) : bool :=
  match v with
  | JUndefined | JNull => false
  | JBool b => b
  | JNum n => negb (n =? 0)
  | JStr s => negb (String.eqb s EmptyString)
  | JObj => true
  end.

(** The outcome of a call that may throw (of a promise that may reject). *)
Inductive completion (A : Type) : Type :=
| Return (a : A)
| Throw (err : string).
Arguments Return {A} a.
Arguments Throw {A} err.

#[global] Instance jsval_eq_dec : EqDecision jsval.
Proof. solve_decision. Defined.

(** [await c; k]: a rejection skips the rest of the function. *)
#[global] Instance completion_bind : MBind completion := λ A B k c,
  match c with
  | Return a => k a
  | Throw e => Throw e
  end.

(** ** [src/supportedLanguages.ts] *)

Module Registry.

Record LanguageInfo : Type := {
  languageId : string;
  wasmUri : string;
  suffixes : list string;
}.

(** [vscode.Uri.joinPath(base, segment)] on the string form of the uri. *)
Definition joinPath (base segment : string) : string := base +:+ "/" +:+ segment.

(** What the registry reads from the editor: the installed extensions
    and the settings the user has written. *)
Record Env : Type := {
  extensions : gset string;
  settings : gmap string jsval;
}.

(** [vscode.extensions.getExtension(id)], as far as its truthiness goes. *)
Definition getExtension (env : Env) (id : string) : bool :=
  bool_decide (id ∈ extensions env).

Definition all_ids : list string :=
  ["c"; "cpp"; "csharp"; "go"; "java"; "php"; "python"; "rust"; "typescript"].

Definition enabled_key (id : string) : string := "language." +:+ id +:+ ".enabled".

(** Modelled from the spec: the defaults the extension's manifest
    (package.json, not part of the sources at hand) contributes to the
    [anycode] section; the specification gives
    [language.<id>.enabled] the default [true] and [symbolIndexSize]
    the default 500. *)
Definition contributed_default (key : string) : option jsval :=
  if bool_decide (key ∈ (λ id, "anycode." +:+ enabled_key id) <$> all_ids)
  then Some (JBool true)
  else if bool_decide (key = "anycode.symbolIndexSize") then Some (JNum 500)
  else None.

(** [vscode.workspace.getConfiguration(section).get(key)]: the user's
    value, else the contributed default, else [undefined]. *)
Definition config_get (env : Env) (section key : string) : jsval :=
  let full := section +:+ "." +:+ key in
  match settings env !! full with
  | Some v => v
  | None => default JUndefined (contributed_default full)
  end.

Record SupportedLanguages : Type := {
  _all : list LanguageInfo;
  _filteredAll : option (list LanguageInfo);
}.

(** The constructor's static table. *)
Definition table (extensionUri : string) : list LanguageInfo :=
  [ {| languageId := "c"; wasmUri := joinPath extensionUri "tree-sitter-c.wasm";
       suffixes := ["c"; "i"] |};
    {| languageId := "cpp"; wasmUri := joinPath extensionUri "tree-sitter-cpp.wasm";
       suffixes := ["cpp"; "cc"; "cxx"; "c++"; "hpp"; "hh"; "hxx"; "h++"; "h"; "ii";
                    "ino"; "inl"; "ipp"; "ixx"; "hpp.in"; "h.in"] |};
    {| languageId := "csharp"; wasmUri := joinPath extensionUri "tree-sitter-c_sharp.wasm";
       suffixes := ["cs"] |};
    {| languageId := "go"; wasmUri := joinPath extensionUri "tree-sitter-go.wasm";
       suffixes := ["go"] |};
    {| languageId := "java"; wasmUri := joinPath extensionUri "tree-sitter-java.wasm";
       suffixes := ["java"] |};
    {| languageId := "php"; wasmUri := joinPath extensionUri "tree-sitter-php.wasm";
       suffixes := ["php"; "php4"; "php5"; "phtml"; "ctp"] |};
    {| languageId := "python"; wasmUri := joinPath extensionUri "tree-sitter-python.wasm";
       suffixes := ["py"; "rpy"; "pyw"; "cpy"; "gyp"; "gypi"; "pyi"; "ipy"] |};
    {| languageId := "rust"; wasmUri := joinPath extensionUri "tree-sitter-rust.wasm";
       suffixes := ["rs"] |};
    {| languageId := "typescript"; wasmUri := joinPath extensionUri "tree-sitter-typescript.wasm";
       suffixes := ["ts"; "tsx"] |} ].

Definition new (extensionUri : string) : SupportedLanguages :=
  {| _all := table extensionUri; _filteredAll := None |}.

(** [_reset], as far as the fields go; that [_onDidChange] fires is
    counted by [reset_world] below. *)
Definition _reset (this : SupportedLanguages) : SupportedLanguages :=
  {| _all := _all this; _filteredAll := None |}.

(** The set built at the top of [getSupportedLanguages]. *)
Definition wellKnownIgnored (env : Env) : gset string :=
  let s0 : gset string := ∅ in
  let s1 := if getExtension env "vscode.typescript-language-features"
            then s0 ∪ {["typescript"]} else s0 in
  if getExtension env "ms-python.python" then s1 ∪ {["python"]} else s1.

(** The callback handed to [this._all.filter]. *)
Definition keep (env : Env) (item : LanguageInfo) : bool :=
  if bool_decide (languageId item ∈ wellKnownIgnored env) then false
  else if negb (truthy (config_get env "anycode" (enabled_key (languageId item)))) then false
  else true.

Definition getSupportedLanguages (env : Env) (this : SupportedLanguages)
  : list LanguageInfo * SupportedLanguages :=
  match _filteredAll this with
  | None =>
      let filtered := List.filter (keep env) (_all this) in
      (filtered, {| _all := _all this; _filteredAll := Some filtered |})
  | Some cached => (cached, this)
  end.

Definition getSupportedLanguagesAsSelector (env : Env) (this : SupportedLanguages)
  : list string * SupportedLanguages :=
  let '(langs, this') := getSupportedLanguages env this in
  (languageId <$> langs, this').

(** *** The registry inside the editor

    The constructor subscribes [_reset] to [vscode.extensions.onDidChange]
    and, guarded by [affectsConfiguration('anycode.language')], to
    [vscode.workspace.onDidChangeConfiguration]. *)

Record World : Type := {
  env : Env;
  registry : SupportedLanguages;
  fired : nat;  (* how often [_onDidChange] has fired *)
}.

(** The keys of a configuration section, as a change event of the
    editor counts them: the section itself and the keys below it, by
    dotted segments ([anycode.languages.x] is not below
    [anycode.language]). *)
Definition in_section (section key : string) : bool :=
  String.eqb key section || String.prefix (section +:+ ".") key.

(** [e.affectsConfiguration('anycode.language')] for a change of the
    settings from [old] to [new]: the value of some key of that section
    differs. *)
Definition affectsConfiguration (old new : gmap string jsval) : bool :=
  bool_decide (filter (λ kv, in_section "anycode.language" kv.1 = true) old
               ≠ filter (λ kv, in_section "anycode.language" kv.1 = true) new).

Inductive event : Type :=
| ExtensionsChanged (exts : gset string)
| ConfigurationChanged (new : gmap string jsval)
| Read.

Definition reset_world (e : Env) (w : World) : World :=
  {| env := e; registry := _reset (registry w); fired := S (fired w) |}.

Definition step (w : World) (ev : event) : World :=
  match ev with
  | ExtensionsChanged exts =>
      reset_world {| extensions := exts; settings := settings (env w) |} w
  | ConfigurationChanged new =>
      let e := {| extensions := extensions (env w); settings := new |} in
      if affectsConfiguration (settings (env w)) new
      then reset_world e w
      else {| env := e; registry := registry w; fired := fired w |}
  | Read =>
      {| env := env w;
         registry := (getSupportedLanguages (env w) (registry w)).2;
         fired := fired w |}
  end.

Definition run (w : World) (evs : list event) : World := foldl step w evs.

Definition start (extensionUri : string) (e : Env) : World :=
  {| env := e; registry := new extensionUri; fired := 0 |}.

(** *** Vocabulary of the registry's properties *)

(** What the cache may hold when the editor is in state [e]. *)
Definition cache_fresh (uri : string) (e : Env) (this : SupportedLanguages) : Prop :=
  _all this = table uri ∧
  (_filteredAll this = None ∨
   _filteredAll this = Some (List.filter (keep e) (table uri))).

Definition cache_sub (uri : string) (this : SupportedLanguages) : Prop :=
  _all this = table uri ∧
  ∀ l, _filteredAll this = Some l → sublist l (table uri).

(** The user's value of [anycode.language.<id>.enabled], if any. *)
Definition flag (s : gmap string jsval) (id : string) : option jsval :=
  s !! ("anycode.language." +:+ id +:+ ".enabled").

(** The flags of the table's languages, where the user has set them,
    are booleans (the type the configuration surface gives them). *)
Definition flags_boolean (s : gmap string jsval) : Prop :=
  ∀ id v, id ∈ all_ids → flag s id = Some v → ∃ b, v = JBool b.

(** The companion extension that shadows a language is installed. *)
Definition shadowed (exts : gset string) (id : string) : Prop :=
  (id = "typescript" ∧ "vscode.typescript-language-features" ∈ exts) ∨
  (id = "python" ∧ "ms-python.python" ∈ exts).

(** The reading of the specification's rule for the flag: in every
    configuration, a language of the table is returned exactly when
    its flag is [true] or absent and no companion shadows it. *)
Definition enabled_iff_true_or_absent : Prop :=
  ∀ (uri : string) (e : Env) (evs : list event) (item : LanguageInfo),
    let w := run (start uri e) evs in
    item ∈ table uri →
    item ∈ (getSupportedLanguages (env w) (registry w)).1 ↔
      (flag (settings (env w)) (languageId item) = Some (JBool true) ∨
       flag (settings (env w)) (languageId item) = None) ∧
      ¬ shadowed (extensions (env w)) (languageId item).

(** *** A sample editor: the TypeScript companion is installed, C is
    switched off, then Go is switched off instead. *)

Definition sample_env : Env :=
  {| extensions := {["vscode.typescript-language-features"]};
     settings := {["anycode.language.c.enabled" := JBool false]} |}.

Definition sample_events : list event :=
  [Read; ConfigurationChanged {["anycode.language.go.enabled" := JBool false]}; Read].

Definition go_info : LanguageInfo :=
  {| languageId := "go"; wasmUri := joinPath "ext" "tree-sitter-go.wasm";
     suffixes := ["go"] |}.

(** *** Further sample editors *)

(** An editor whose user wrote a string where a boolean belongs. *)
Definition lenient_env : Env :=
  {| extensions := ∅;
     settings := {["anycode.language.go.enabled" := JStr "yes"]} |}.

(** The sample settings with keys outside [anycode.language] added. *)
Definition other_settings : gmap string jsval :=
  <["editor.fontSize" := JNum 12]>
    (<["anycode.symbolIndexSize" := JNum 100]>
       (<["anycode.languages.server" := JStr "x"]> (settings sample_env))).

(** The sample extensions with an unrelated one added. *)
Definition go_extensions : gset string :=
  {["vscode.typescript-language-features"; "golang.go"]}.

End Registry.

(** ** [anycode/client/src/common/client.ts]: one server instance *)

Module Client.

(** A [vscode.Uri], by the components the client looks at. *)
Record Uri : Type := {
  scheme : string;
  authority : string;
  path : string;
}.

(** [String(uri)]: the scheme and a colon, two slashes when there is
    an authority or the scheme is [file], the authority, the path. The
    percent-encoding of reserved characters and the lower-casing of the
    authority and of a drive letter are left aside: this is [String(uri)]
    for components that need neither. *)
Definition Uri_toString (u : Uri) : string :=
  scheme u +:+ ":"
  +:+ (if negb (String.eqb (authority u) EmptyString) || String.eqb (scheme u) "file"
       then "//" else EmptyString)
  +:+ authority u +:+ path u.

Definition fsPath (u : Uri) : string := path u.

Definition joinPath (u : Uri) (segment : string) : Uri :=
  {| scheme := scheme u; authority := authority u; path := path u +:+ "/" +:+ segment |}.

(** The per-language feature switches of [shared/common/initOptions],
    by the three fields [_startServer] reads. *)
Record FeatureConfig : Type := {
  workspaceSymbols : bool;
  references : bool;
  definitions : bool;
}.

Record InitOptions : Type := {
  treeSitterWasmUri : string;
  supportedLanguages : list (Registry.LanguageInfo * FeatureConfig);
  databaseName : jsval;
}.

Record ClientOptions : Type := {
  documentSelector : list string;
  fileEvents : string;
  initializationOptions : InitOptions;
}.

(** What a run does to the outside, in the order it does it. The
    [duration] measurement of the [init] event is a clock reading and
    is left out. *)
Inductive effect : Type :=
| ConsoleLog (msg : string)
| ConsoleInfo (msg : string)
| ConsoleWarn (msg : string)
| CreateFileSystemWatcher (pattern : string)
| CreateLanguageClient (id name : string) (opts : ClientOptions)
| ClientStart
| FindFiles (pattern exclude : string)
| WithProgress (title : string)
| OnRequest (method : string)
| SendRequest (method : string) (params : list string)
| TelemetryInit (numOfFiles indexSize hasWorkspaceContents : Z)
| ShowStatusAndInfo (selector : list string) (showCommandHint : bool).

(** The memento behind [context.workspaceState] and the effects so far. *)
Record Mem : Type := {
  workspaceState : gmap string jsval;
  out : list effect;
}.

(** An [async] function body: it reads and writes [Mem] and either
    returns or rejects. *)
Definition prog (A : Type) : Type := Mem → Mem * completion A.

#[global] Instance prog_ret : MRet prog := λ A a m, (m, Return a).
#[global] Instance prog_bind : MBind prog := λ A B k c m,
  match c m with
  | (m', Return a) => k a m'
  | (m', Throw e) => (m', Throw e)
  end.

Definition await {A} (c : completion A) : prog A := λ m, (m, c).

Definition emit (e : effect) : prog unit := λ m,
  ({| workspaceState := workspaceState m; out := out m ++ [e] |}, Return tt).

(** [try { body } catch (err) { handler }] *)
Definition try_catch {A} (body : prog A) (handler : string → prog A) : prog A := λ m,
  match body m with
  | (m', Return a) => (m', Return a)
  | (m', Throw e) => handler e m'
  end.

(** [Memento.get(key, defaultValue)] and [Memento.update(key, value)];
    the memento answers from memory, so an update is seen by the next
    [get] although its promise is not awaited. *)
Definition workspaceState_get (key : string) (defaultValue : jsval) : prog jsval := λ m,
  (m, Return (match workspaceState m !! key with
              | Some v => if decide (v = JUndefined) then defaultValue else v
              | None => defaultValue
              end)).

Definition workspaceState_update (key : string) (value : jsval) : prog unit := λ m,
  ({| workspaceState := if decide (value = JUndefined)
                        then delete key (workspaceState m)
                        else <[key := value]> (workspaceState m);
      out := out m |}, Return tt).

(** The remote-repositories companion, as [_canInitWithoutLimits] uses it. *)
Record RemoteHubApi : Type := {
  loadWorkspaceContents : option (Uri → completion bool);
}.

Record Extension : Type := {
  activate : completion (option RemoteHubApi);
}.

(** Everything [_startServer] asks of the editor, the registry and the
    language client during one run. *)
Record Host : Type := {
  (* the registry's answer: the enabled languages and their features *)
  getSupportedLanguages : list (Registry.LanguageInfo * FeatureConfig);
  (* Math.random().toString(32).slice(2) *)
  random : string;
  extensionUri : Uri;
  importScripts_in_globalThis : bool;
  (* client.onReady() *)
  onReady : completion unit;
  (* Object.keys of the search.exclude and files.exclude settings *)
  search_exclude : list string;
  files_exclude : list string;
  (* the user's anycode.symbolIndexSize, when set *)
  symbolIndexSize : option Z;
  findFiles : completion (list Uri);
  workspaceFolders : option (list Uri);
  getExtension : string → option Extension;
  (* client.sendRequest('queue/init', ...) *)
  sendRequest : list string → completion unit;
  (* the file/read side *)
  Uri_parse : string → completion Uri;
  openTextDocument : Uri → completion string;
  isWritableFileSystem : string → option bool;
  stat_size : Uri → completion Z;
  readFile : Uri → completion (list byte);
}.

(** Modelled from the spec: the registry that client.ts imports (the
    [supportedLanguages] module next to it, whose languages carry their
    feature switches) is not among the sources; its document selector
    is derived from the enabled languages, by their identifiers, as
    [Registry.getSupportedLanguagesAsSelector] does. *)
Definition getSupportedLanguagesAsSelector (h : Host) : list string :=
  (λ entry, Registry.languageId entry.1) <$> getSupportedLanguages h.

Definition MAX_SAFE_INTEGER : Z := 2 ^ 53 - 1.

(** The largest [length] a JavaScript array can have. *)
Definition MAX_ARRAY_LENGTH : Z := 2 ^ 32 - 1.

(** The first [n] elements, [n] counted in [Z]. *)
Fixpoint take {A} (n : Z) (l : list A) : list A :=
  match l with
  | [] => []
  | x :: rest => if n <=? 0 then [] else x :: take (n - 1) rest
  end.

(** [l.slice(0, e)] for an integral [e]: a negative [e] counts from the end. *)
Definition slice0 {A} (l : list A) (e : Z) : list A :=
  let len := Z.of_nat (length l) in
  take (if e <? 0 then Z.max (len + e) 0 else Z.min e len) l.

(** The one-character string holding a double quote. *)
Definition dquote : string :=
  String (Ascii.Ascii false true false false false true false false) EmptyString.

(** [TextEncoder.encode]: a [string] stands for its UTF-8 bytes. *)
Definition TextEncoder_encode (s : string) : list byte := String.list_byte_of_string s.

Definition _getRemoteHubExtension (h : Host) : option Extension :=
  match getExtension h "ms-vscode.remote-repositories" with
  | Some e => Some e
  | None =>
      match getExtension h "GitHub.remoteHub" with
      | Some e => Some e
      | None => getExtension h "GitHub.remoteHub-insiders"
      end
  end.

Definition is_vfs (folder : Uri) : bool := String.eqb (scheme folder) "vscode-vfs".

Definition _isRemoteHubWorkspace (h : Host) : bool :=
  match _getRemoteHubExtension h with
  | None => false
  | Some _ =>
      match workspaceFolders h with
      | Some folders => forallb is_vfs folders
      | None => false
      end
  end.

(** The [for] loop at the end of [_canInitWithoutLimits]. *)
Fixpoint load_all (load : Uri → completion bool) (remoteFolders : list Uri)
  : completion bool :=
  match remoteFolders with
  | [] => Return true
  | folder :: rest =>
      ok ← load folder;
      if negb ok then Return false else load_all load rest
  end.

Definition _canInitWithoutLimits (h : Host) : completion bool :=
  match workspaceFolders h with
  | None => Return false
  | Some folders =>
      let remoteFolders := List.filter is_vfs folders in
      if (length remoteFolders =? 0)%nat then Return true
      else
        remoteHubApi ← match _getRemoteHubExtension h with
                       | Some remoteHub => activate remoteHub
                       | None => Return None
                       end;
        match remoteHubApi ≫= loadWorkspaceContents with
        | None => Return false
        | Some load => load_all load remoteFolders
        end
  end.

(** [Math.max(0, config.get<number>('symbolIndexSize', 500))] *)
Definition configured_size (h : Host) : Z := Z.max 0 (default 500 (symbolIndexSize h)).

(** Lines 167-175: the cap and the [hasWorkspaceContents] flag after
    the capability query. *)
Definition lift_limit (h : Host) (all : list Uri) (size : Z) : completion (Z * Z) :=
  if 50 <? Z.of_nat (length all)
  then
    unlimited ← _canInitWithoutLimits h;
    if unlimited : bool then Return (MAX_SAFE_INTEGER, 1) else Return (size, 0)
  else Return (size, 0).

(** The callback of [findFiles(...).then], the promise called [init]. *)
Definition init (h : Host) (langPattern : string) (selector : list string) (size : Z)
  : prog unit :=
  all ← await (findFiles h);
  '(size, hasWorkspaceContents) ← await (lift_limit h all size);
  let uris := slice0 all size in
  emit (ConsoleInfo ("USING " +:+ pretty (length uris) +:+ " of " +:+ pretty (length all)
                     +:+ " files for " +:+ langPattern));;
  let params := Uri_toString <$> uris in
  emit (SendRequest "queue/init" params);;
  await (sendRequest h params);;
  emit (TelemetryInit (Z.of_nat (length all)) (Z.of_nat (length uris)) hasWorkspaceContents);;
  (* [!hasWorkspaceContents] on a number: it is zero *)
  emit (ShowStatusAndInfo selector
          ((hasWorkspaceContents =? 0) && _isRemoteHubWorkspace h)).

(** The handler registered for [file/read]. *)
Definition file_read (h : Host) (raw : string) : prog (list byte) :=
  uri ← await (Uri_parse h raw);
  if String.eqb (scheme uri) "vscode-notebook-cell"
  then
    try_catch
      (doc ← await (openTextDocument h uri);
       mret (TextEncoder_encode doc))
      (λ err, emit (ConsoleWarn err);; mret [])
  else
    match isWritableFileSystem h (scheme uri) with
    | None => mret []
    | Some _ =>
        try_catch
          (size ← await (stat_size h uri);
           if 1024 ^ 2 <? size
           then
             emit (ConsoleWarn ("IGNORING " +:+ dquote +:+ Uri_toString uri +:+ dquote
                                +:+ " because it is too large (" +:+ pretty size +:+ "bytes)"));;
             mret []
           else
             data ← await (readFile h uri);
             mret data)
          (λ err, emit (ConsoleWarn err);; mret [])
    end.

(** What [_startServer] resolves to: the empty placeholder, or a
    running instance with its pending [init] promise and its
    [file/read] handler. The resources behind the second disposable
    (watcher, client, status item) show in the effects that create
    them. *)
Inductive ServerHandle : Type :=
| NoServer
| Server (initialize : prog unit) (onFileRead : string → prog (list byte)).

Definition has_index_feature (entry : Registry.LanguageInfo * FeatureConfig) : bool :=
  workspaceSymbols entry.2 || references entry.2 || definitions entry.2.

(** [`**/*.{${findAndSearchSuffixes.join(',')}}`]: joining an array of
    arrays joins the inner arrays with commas too. *)
Definition langPattern (langs : list (Registry.LanguageInfo * FeatureConfig)) : string :=
  let findAndSearchSuffixes :=
    (λ entry, Registry.suffixes entry.1) <$> List.filter has_index_feature langs in
  "**/*.{" +:+ String.concat "," (String.concat "," <$> findAndSearchSuffixes) +:+ "}".

Definition exclude (h : Host) : string :=
  "{" +:+ String.concat "," (search_exclude h ++ files_exclude h) +:+ "}".

Definition _startServer (h : Host) : prog ServerHandle :=
  let supportedLanguages := getSupportedLanguages h in
  let documentSelector := getSupportedLanguagesAsSelector h in
  if (length documentSelector =? 0)%nat
  then
    emit (ConsoleLog "[anycode] NO supported languages, no server needed");;
    mret NoServer
  else
    databaseName ← workspaceState_get "dbName" (JStr ("anycode_" +:+ random h));
    workspaceState_update "dbName" databaseName;;
    let pattern := langPattern supportedLanguages in
    emit (CreateFileSystemWatcher pattern);;
    let wasm := joinPath (extensionUri h)
                  "server/node_modules/web-tree-sitter/tree-sitter.wasm" in
    let initializationOptions :=
      {| treeSitterWasmUri := if importScripts_in_globalThis h
                              then Uri_toString wasm else fsPath wasm;
         supportedLanguages := supportedLanguages;
         databaseName := databaseName |} in
    let clientOptions :=
      {| documentSelector := documentSelector;
         fileEvents := pattern;
         initializationOptions := initializationOptions |} in
    emit (CreateLanguageClient "anycode" "anycode" clientOptions);;
    emit ClientStart;;
    await (onReady h);;
    let size := configured_size h in
    emit (FindFiles pattern (exclude h));;
    emit (WithProgress "Building Index...");;
    emit (OnRequest "file/read");;
    mret (Server (init h pattern documentSelector size) (file_read h)).

(** Server starts one after the other over the same workspace. *)
Fixpoint start_all (hs : list Host) (m : Mem) : Mem :=
  match hs with
  | [] => m
  | h :: rest => start_all rest (_startServer h m).1
  end.

Definition database_names (m : Mem) : list jsval :=
  omap (λ e, match e with
             | CreateLanguageClient _ _ opts => Some (databaseName (initializationOptions opts))
             | _ => None
             end) (out m).

(** *** Vocabulary of the client's properties *)

(** The name found in the workspace state, if one is stored. *)
Definition persisted (m : Mem) : option jsval :=
  match workspaceState m !! "dbName" with
  | Some v => if decide (v = JUndefined) then None else Some v
  | None => None
  end.

Definition has_languages (h : Host) : bool :=
  negb (length (getSupportedLanguagesAsSelector h) =? 0)%nat.

(** The name a series of starts settles on: the stored one, else the
    candidate of the first start that gets to allocate one. *)
Definition settled_name (hs : list Host) (m : Mem) : jsval :=
  match persisted m with
  | Some v => v
  | None =>
      match List.filter has_languages hs with
      | h :: _ => JStr ("anycode_" +:+ random h)
      | [] => JUndefined
      end
  end.

(** The effects of [init] once the cap is known. *)
Definition init_effects (h : Host) (pattern : string) (selector : list string)
    (all : list Uri) (cap hasWorkspaceContents : Z) : list effect :=
  let uris := take (Z.min (Z.of_nat (length all)) cap) all in
  [ ConsoleInfo ("USING " +:+ pretty (length uris) +:+ " of " +:+ pretty (length all)
                 +:+ " files for " +:+ pattern);
    SendRequest "queue/init" (Uri_toString <$> uris) ]
  ++ match sendRequest h (Uri_toString <$> uris) with
     | Return _ =>
         [ TelemetryInit (Z.of_nat (length all)) (Z.min (Z.of_nat (length all)) cap)
             hasWorkspaceContents;
           ShowStatusAndInfo selector
             ((hasWorkspaceContents =? 0) && _isRemoteHubWorkspace h) ]
     | Throw _ => []
     end.

(** A run of [init] that submits the first [min F cap] of the [F]
    files found: the log line, the request, and, the request answered,
    the telemetry event with [numOfFiles = F] and [indexSize] the
    number submitted, and the status item. *)
Definition submits (h : Host) (pattern : string) (selector : list string)
    (all : list Uri) (cap hasWorkspaceContents : Z) (m : Mem) : Mem * completion unit :=
  let F := Z.of_nat (length all) in
  let submitted := firstn (Z.to_nat (Z.min F cap)) all in
  ({| workspaceState := workspaceState m;
      out := out m ++
        [ ConsoleInfo ("USING " +:+ pretty (length submitted) +:+ " of "
                       +:+ pretty (length all) +:+ " files for " +:+ pattern);
          SendRequest "queue/init" (Uri_toString <$> submitted) ]
        ++ match sendRequest h (Uri_toString <$> submitted) with
           | Return _ =>
               [ TelemetryInit F (Z.of_nat (length submitted)) hasWorkspaceContents;
                 ShowStatusAndInfo selector
                   ((hasWorkspaceContents =? 0) && _isRemoteHubWorkspace h) ]
           | Throw _ => []
           end |},
   sendRequest h (Uri_toString <$> submitted)).

(** The reading of the specification's cap rule as a rule for every
    run: the cap is lifted when more than 50 files are found and the
    capability query succeeds, it is the configured one otherwise, and
    the first [min F cap] files are submitted. *)
Definition every_run_submits_capped_prefix : Prop :=
  ∀ (h : Host) (pattern : string) (selector : list string) (all : list Uri) (m : Mem),
    findFiles h = Return all →
    Z.of_nat (length all) ≤ MAX_ARRAY_LENGTH →
    let F := Z.of_nat (length all) in
    let cap := match 50 <? F, _canInitWithoutLimits h with
               | true, Return true => MAX_SAFE_INTEGER
               | _, _ => configured_size h
               end in
    SendRequest "queue/init" (Uri_toString <$> firstn (Z.to_nat (Z.min F cap)) all)
      ∈ out (init h pattern selector (configured_size h) m).1.

(** The reading of the specification's failure rule for the capability
    query: a query that fails, by throwing too, leaves [init] running
    with the configured cap. *)
Definition query_failure_absorbed : Prop :=
  ∀ (h : Host) (pattern : string) (selector : list string) (all : list Uri)
    (m : Mem) (err : string),
    findFiles h = Return all →
    50 < Z.of_nat (length all) →
    (∀ params, sendRequest h params = Return tt) →
    _canInitWithoutLimits h = Throw err →
    ∃ m', init h pattern selector (configured_size h) m = (m', Return tt) ∧
          SendRequest "queue/init"
            (Uri_toString <$> take (Z.min (Z.of_nat (length all)) (configured_size h)) all)
            ∈ out m'.

(** The reading of the specification's rule for [file/read]: whatever
    the string, the handler returns bytes. *)
Definition file_read_never_throws : Prop :=
  ∀ (h : Host) (raw : string) (m : Mem),
    ∃ m' bytes, file_read h raw m = (m', Return bytes).

(** *** Sample editors *)

Definition file_uri (p : string) : Uri :=
  {| scheme := "file"; authority := EmptyString; path := p |}.

Definition vfs_uri (p : string) : Uri :=
  {| scheme := "vscode-vfs"; authority := "github"; path := p |}.

Definition cell_uri : Uri :=
  {| scheme := "vscode-notebook-cell"; authority := EmptyString; path := "/ws/nb.ipynb" |}.

Definition go_entry : Registry.LanguageInfo * FeatureConfig :=
  ({| Registry.languageId := "go";
      Registry.wasmUri := "file:///ext/tree-sitter-go.wasm";
      Registry.suffixes := ["go"] |},
   {| workspaceSymbols := true; references := false; definitions := true |}).

(** *** The parser of the sample editors *)

Definition is_one_of (cs : string) (c : Ascii.ascii) : bool :=
  existsb (Ascii.eqb c) (String.list_ascii_of_string cs).

(** The longest prefix without a character of [stops], and the rest. *)
Fixpoint span (stops s : string) : string * string :=
  match s with
  | EmptyString => (EmptyString, EmptyString)
  | String c rest =>
      if is_one_of stops c then (EmptyString, s)
      else let '(before, after) := span stops rest in (String c before, after)
  end.

(** The word characters of a regular expression. *)
Definition is_word (c : Ascii.ascii) : bool :=
  let n := Ascii.N_of_ascii c in
  ((48 <=? n) && (n <=? 57) || (65 <=? n) && (n <=? 90)
   || (97 <=? n) && (n <=? 122) || (n =? 95))%N.

(** The scheme pattern: a word character, then word characters, [+],
    [.] and [-]. *)
Definition scheme_ok (s : string) : bool :=
  match s with
  | EmptyString => false
  | String c rest =>
      is_word c
      && forallb (λ d, is_word d || is_one_of "+.-" d) (String.list_ascii_of_string rest)
  end.

(** What [vscode.Uri.parse] (not strict) makes of a string without
    percent escapes: scheme, authority and path are cut out as its
    regular expression does, query and fragment are dropped; a missing
    scheme reads as [file]; the path of a [file], [http] or [https] uri
    is made to start with a slash; the result is validated. *)
Definition sample_parse (raw : string) : completion Uri :=
  let '(s, after) := span ":/?#" raw in
  let '(scheme, rest) :=
    match s, after with
    | String _ _, String c rest => if is_one_of ":" c then (s, rest) else (EmptyString, raw)
    | _, _ => (EmptyString, raw)
    end in
  let '(authority, rest) :=
    if String.prefix "//" rest then span "/?#" (String.substring 2 (String.length rest) rest)
    else (EmptyString, rest) in
  let path := (span "?#" rest).1 in
  let scheme := if String.eqb scheme EmptyString then "file" else scheme in
  let path :=
    if String.eqb scheme "https" || String.eqb scheme "http" || String.eqb scheme "file"
    then if String.prefix "/" path then path else "/" +:+ path
    else path in
  if negb (scheme_ok scheme)
  then Throw "[UriError]: Scheme contains illegal characters."
  else if negb (String.eqb authority EmptyString) && negb (String.eqb path EmptyString)
          && negb (String.prefix "/" path)
  then Throw ("[UriError]: If a URI contains an authority component, then the path "
              +:+ "component must either be empty or begin with a slash ("
              +:+ dquote +:+ "/" +:+ dquote +:+ ") character")
  else if String.eqb authority EmptyString && String.prefix "//" path
  then Throw ("[UriError]: If a URI does not contain an authority component, then the "
              +:+ "path cannot begin with two slash characters ("
              +:+ dquote +:+ "//" +:+ dquote +:+ ")")
  else Return {| scheme := scheme; authority := authority; path := path |}.

(** A local workspace with [files] matching files, the cap set to [cap],
    [langs] enabled, folders [folders], and [hub] as what
    [getExtension] finds for the remote-repositories companion. *)
Definition sample_host (langs : list (Registry.LanguageInfo * FeatureConfig))
    (files : nat) (cap : option Z) (folders : option (list Uri))
    (hub : option Extension) (rnd : string) : Host :=
  {| getSupportedLanguages := langs;
     random := rnd;
     extensionUri := file_uri "/ext";
     importScripts_in_globalThis := false;
     onReady := Return tt;
     search_exclude := ["**/node_modules"];
     files_exclude := ["**/.git"];
     symbolIndexSize := cap;
     findFiles := Return ((λ i, file_uri ("/ws/f" +:+ pretty i +:+ ".go")) <$> seq 0 files);
     workspaceFolders := folders;
     getExtension := λ id, if String.eqb id "ms-vscode.remote-repositories" then hub else None;
     sendRequest := λ _, Return tt;
     Uri_parse := sample_parse;
     openTextDocument := λ u, if String.eqb (path u) "/ws/nb.ipynb"
                              then Return "print(1)" else Throw "cannot open";
     isWritableFileSystem := λ s, if String.eqb s "file" then Some true else None;
     stat_size := λ u, if String.eqb (path u) "/ws/big.bin" then Return 1048577
                       else if String.eqb (path u) "/ws/a.go" then Return 12
                       else Throw "FileNotFound";
     readFile := λ u, if String.eqb (path u) "/ws/a.go"
                      then Return (String.list_byte_of_string "package main")
                      else Throw "FileNotFound" |}.

Definition local_host : Host :=
  sample_host [go_entry] 100 (Some 2) (Some [file_uri "/ws"]) None "k3j9".

(** A remote workspace whose companion extension fails to activate. *)
Definition broken_hub_host : Host :=
  sample_host [go_entry] 100 (Some 2) (Some [vfs_uri "/repo"])
    (Some {| activate := Throw "activation failed" |}) "k3j9".

(** A remote workspace whose contents cannot be loaded. *)
Definition unloadable_host : Host :=
  sample_host [go_entry] 100 (Some 2) (Some [vfs_uri "/repo"])
    (Some {| activate :=
               Return (Some {| loadWorkspaceContents := Some (λ _, Return false) |}) |})
    "k3j9".

(** A remote workspace whose companion fails while it loads the
    contents. *)
Definition rate_limited_host : Host :=
  sample_host [go_entry] 100 (Some 2) (Some [vfs_uri "/repo"])
    (Some {| activate :=
               Return (Some {| loadWorkspaceContents :=
                                 Some (λ _, Throw "rate limit exceeded") |}) |})
    "k3j9".

Definition idle_host : Host :=
  sample_host [] 100 None (Some [file_uri "/ws"]) None "zz".

Definition empty_mem : Mem := {| workspaceState := ∅; out := [] |}.

(** *** Further vocabulary and samples *)

(** The identifiers [_getRemoteHubExtension] tries, in its order. *)
Definition remote_ids : list string :=
  ["ms-vscode.remote-repositories"; "GitHub.remoteHub"; "GitHub.remoteHub-insiders"].

(** The suffix lists behind [langPattern], one per language with an
    indexing feature. *)
Definition indexed_suffixes (langs : list (Registry.LanguageInfo * FeatureConfig))
  : list (list string) :=
  (λ entry, Registry.suffixes entry.1) <$> List.filter has_index_feature langs.

(** The outcome of [init], step by step, without its effects. *)
Definition init_outcome (h : Host) (size : Z) : completion unit :=
  all ← findFiles h;
  limit ← lift_limit h all size;
  sendRequest h (Uri_toString <$> take (Z.min (Z.of_nat (length all)) limit.1) all).

(** A workspace of three local files whose cap is set below zero. *)
Definition negative_cap_host : Host :=
  sample_host [go_entry] 3 (Some (-5)) (Some [file_uri "/ws"]) None "k3j9".

(** A language with references only, and one with no indexing feature. *)
Definition c_entry : Registry.LanguageInfo * FeatureConfig :=
  ({| Registry.languageId := "c";
      Registry.wasmUri := "file:///ext/tree-sitter-c.wasm";
      Registry.suffixes := ["c"; "i"] |},
   {| workspaceSymbols := false; references := true; definitions := false |}).

Definition php_entry : Registry.LanguageInfo * FeatureConfig :=
  ({| Registry.languageId := "php";
      Registry.wasmUri := "file:///ext/tree-sitter-php.wasm";
      Registry.suffixes := ["php"; "php4"; "php5"; "phtml"; "ctp"] |},
   {| workspaceSymbols := false; references := false; definitions := false |}).

End Client.

(** ** [startClient]: the supervisor

    [startClient] keeps the promises of its [_startServer] calls in
    [serverHandles]. Its two asynchronous pieces, [stopServers] and the
    [onDidChange] listener, run up to their [await] when they are
    called and continue in a later turn of the event loop, once every
    awaited promise has settled. A label of [step] is one such turn;
    the loop that ends [stopServers] and the [startServer()] that
    follows it in the listener are taken as one turn, since no
    notification can arrive between them. *)

Module Supervisor.

(** A handle is the promise of the n-th [_startServer] call. *)
Notation handle := nat (only parsing).

(** [PromiseSettledResult.status] *)
Inductive status : Type := fulfilled | rejected.

#[global] Instance status_eq_dec : EqDecision status.
Proof. solve_decision. Defined.

Inductive effect : Type :=
| Started (h : handle)    (* [_startServer] was called *)
| Disposed (h : handle).  (* [item.value.dispose()] *)

#[global] Instance effect_eq_dec : EqDecision effect.
Proof. solve_decision. Defined.

(** A [stopServers] call parked at [await Promise.allSettled(oldHandles)];
    [restart] tells the [onDidChange] listener, which goes on with
    [startServer()], from the disposable run on deactivation. *)
Record pending : Type := {
  oldHandles : list handle;
  restart : bool;
}.

Record State : Type := {
  serverHandles : list handle;
  calls : nat;                  (* [_startServer] calls so far *)
  settled : gmap handle status; (* the promises that have settled *)
  parked : list pending;
  trace : list effect;
}.

Inductive label : Type :=
| Change                          (* [supportedLanguages.onDidChange] fires *)
| Deactivate                      (* the extension's subscriptions are disposed *)
| Settle (h : handle) (s : status) (* a [_startServer] promise settles *)
| Resume (i : nat).               (* the i-th parked call continues *)

(** [startServer()] *)
Definition startServer (st : State) : State :=
  {| serverHandles := serverHandles st ++ [calls st];
     calls := S (calls st);
     settled := settled st;
     parked := parked st;
     trace := trace st ++ [Started (calls st)] |}.

(** [stopServers()] up to its [await]. *)
Definition stopServers_enter (continue : bool) (st : State) : State :=
  {| serverHandles := [];
     calls := calls st;
     settled := settled st;
     parked := parked st ++ [{| oldHandles := serverHandles st; restart := continue |}];
     trace := trace st |}.

(** The loop over the all-settled results. *)
Definition dispose_fulfilled (outcome : gmap handle status) (hs : list handle)
  : list effect :=
  omap (λ h, match outcome !! h with
             | Some fulfilled => Some (Disposed h)
             | _ => None
             end) hs.

Definition all_settled (outcome : gmap handle status) (hs : list handle) : bool :=
  forallb (λ h, bool_decide (is_Some (outcome !! h))) hs.

(** [stopServers()] after its [await], and the rest of the listener. *)
Definition stopServers_leave (t : pending) (st : State) : State :=
  let st' := {| serverHandles := serverHandles st;
                calls := calls st;
                settled := settled st;
                parked := parked st;
                trace := trace st ++ dispose_fulfilled (settled st) (oldHandles t) |} in
  if restart t then startServer st' else st'.

Definition unpark (i : nat) (st : State) : State :=
  {| serverHandles := serverHandles st;
     calls := calls st;
     settled := settled st;
     parked := delete i (parked st);
     trace := trace st |}.

Definition step (st : State) (l : label) : option State :=
  match l with
  | Change => Some (stopServers_enter true st)
  | Deactivate => Some (stopServers_enter false st)
  | Settle h s =>
      if bool_decide (h < calls st)%nat && bool_decide (settled st !! h = None)
      then Some {| serverHandles := serverHandles st;
                   calls := calls st;
                   settled := <[h := s]> (settled st);
                   parked := parked st;
                   trace := trace st |}
      else None
  | Resume i =>
      t ← parked st !! i;
      if all_settled (settled st) (oldHandles t)
      then Some (stopServers_leave t (unpark i st))
      else None
  end.

Fixpoint run (st : State) (ls : list label) : option State :=
  match ls with
  | [] => Some st
  | l :: rest => st' ← step st l; run st' rest
  end.

(** [startClient]: an empty list, then the first [startServer()]. *)
Definition startClient : State :=
  startServer {| serverHandles := []; calls := 0; settled := ∅; parked := []; trace := [] |}.

(** A change that is handled to its end before anything else happens:
    the listener parks, the handles it took settle as [outcome] says,
    the listener continues. *)
Definition settle_all (outcome : handle → status) (hs : list handle) : list label :=
  (λ h, Settle h (outcome h)) <$> hs.

Definition restart_alone (outcome : handle → status) (st : State) : option State :=
  let pending := List.filter (λ h, bool_decide (settled st !! h = None)) (serverHandles st) in
  run st (Change :: settle_all outcome pending ++ [Resume (length (parked st))]).

Fixpoint restarts_alone (outcome : handle → status) (n : nat) (st : State) : option State :=
  match n with
  | O => Some st
  | S n' => st' ← restart_alone outcome st; restarts_alone outcome n' st'
  end.

(** *** Vocabulary of the supervisor's properties *)

(** The starts whose resources have not been released: started and
    not disposed. A start that rejects has created and started its
    watcher and its client by then ([_startServer] awaits [onReady]
    only after them) and hands no disposable to the supervisor, so it
    is never disposed and stays in this list. *)
Definition is_live (st : State) (h : handle) : bool :=
  bool_decide (Disposed h ∉ trace st).

Definition live (st : State) : list handle :=
  List.filter (is_live st) (seq 0 (calls st)).

(** Two change notifications while the first server is still starting:
    the second listener has nothing to wait for and goes first. *)
Definition overlapping_changes : list label :=
  [Change; Change; Resume 1%nat; Settle 0%nat fulfilled; Resume 0%nat].

(** *** Ownership of the handles *)

(** The handles somebody is still responsible for: the current ones and
    those a parked [stopServers] call has taken. *)
Definition owned (st : State) : list handle :=
  serverHandles st ++ concat (oldHandles <$> parked st).

(** What holds of every state [startClient] can get into. *)
Definition well_owned (st : State) : Prop :=
  NoDup (owned st) ∧
  NoDup (trace st) ∧
  (∀ h, h ∈ owned st → (h < calls st)%nat ∧ Disposed h ∉ trace st) ∧
  (∀ h, Disposed h ∈ trace st → (h < calls st)%nat ∧ settled st !! h = Some fulfilled) ∧
  (∀ h, Started h ∈ trace st → (h < calls st)%nat) ∧
  (∀ h, (h < calls st)%nat → Started h ∈ trace st).

Definition is_change (l : label) : bool :=
  match l with Change => true | _ => false end.

(** The parked listeners that will start a server when they continue. *)
Definition restarts_parked (st : State) : nat :=
  length (List.filter restart (parked st)).

(** *** Changes that do not overlap *)

(** The current handles whose promise has not settled. *)
Definition pending_handles (st : State) : list handle :=
  List.filter (λ h, bool_decide (settled st !! h = None)) (serverHandles st).

(** The current server comes up, or fails to, while nothing else
    happens. *)
Definition settle_current (outcome : handle → status) (st : State) : option State :=
  run st (settle_all outcome (pending_handles st)).

(** Deactivation handled to its end before anything else happens. *)
Definition deactivate_alone (outcome : handle → status) (st : State) : option State :=
  run st (Deactivate :: settle_all outcome (pending_handles st)
          ++ [Resume (length (parked st))]).

(** Changes that do not overlap: each is handled to its end before the
    next arrives; [early] tells, change by change, whether the running
    server had settled before the change arrived or settles only
    while the listener waits for it. *)
Fixpoint orderly_restarts (outcome : handle → status) (early : list bool) (st : State)
  : option State :=
  match early with
  | [] => Some st
  | came_up_first :: rest =>
      st1 ← (if came_up_first : bool then settle_current outcome st else Some st);
      st2 ← restart_alone outcome st1;
      orderly_restarts outcome rest st2
  end.

Definition orderly_shutdown (outcome : handle → status) (came_up_first : bool) (st : State)
  : option State :=
  st1 ← (if came_up_first then settle_current outcome st else Some st);
  deactivate_alone outcome st1.

(** The starts among the first [k] that failed. *)
Definition failed (outcome : handle → status) (k : nat) : list handle :=
  List.filter (λ h, bool_decide (outcome h = rejected)) (seq 0 k).

(** The state between two restarts that do not overlap: handle [n] is
    the current one, settled or not, nothing is parked, every earlier
    handle has settled, and those that came up have been disposed. *)
Definition quiet (outcome : handle → status) (n : nat) (st : State) : Prop :=
  serverHandles st = [n] ∧ calls st = S n ∧ parked st = [] ∧
  (settled st !! n = None ∨ settled st !! n = Some (outcome n)) ∧
  (∀ h, (h < n)%nat → settled st !! h = Some (outcome h)) ∧
  (∀ h, (n < h)%nat → settled st !! h = None) ∧
  (∀ h, Disposed h ∈ trace st ↔ (h < n)%nat ∧ outcome h = fulfilled).

(** What a [stopServers] call handled alone leaves behind. *)
Definition stopped (outcome : handle → status) (n : nat) (st : State) : State :=
  {| serverHandles := [];
     calls := S n;
     settled := <[n := outcome n]> (settled st);
     parked := [];
     trace := trace st ++ match outcome n with
                          | fulfilled => [Disposed n]
                          | rejected => []
                          end |}.

End Supervisor.

(** * The language registry *)

Module RegistryFacts.
Import Registry.

Lemma filter_sublist {A} (f : A → bool) (l : list A) : sublist (List.filter f l) l.
Proof.
  induction l as [|x l IH]; simpl; [constructor|].
  destruct (f x); by constructor.
Qed.

Lemma elem_of_filter {A} (f : A → bool) (l : list A) (x : A) :
  x ∈ List.filter f l ↔ f x = true ∧ x ∈ l.
Proof. rewrite !list_elem_of_In, filter_In. tauto. Qed.

Lemma table_ids uri : languageId <$> table uri = all_ids.
Proof. reflexivity. Qed.

Lemma cache_fresh_sub uri e this : cache_fresh uri e this → cache_sub uri this.
Proof.
  intros [Hall Hc]. split; [done|]. intros l Hl.
  destruct Hc as [Hc|Hc]; rewrite Hc in Hl; simplify_eq. apply filter_sublist.
Qed.

Lemma get_fresh uri e this :
  cache_fresh uri e this →
  (getSupportedLanguages e this).1 = List.filter (keep e) (table uri) ∧
  cache_fresh uri e (getSupportedLanguages e this).2.
Proof.
  intros [Hall Hc]. unfold getSupportedLanguages, cache_fresh.
  destruct Hc as [Hc|Hc]; rewrite Hc; cbn [fst snd _all _filteredAll]; rewrite ?Hall; auto.
Qed.

Lemma prefix_app (s t : string) : String.prefix s (s +:+ t) = true.
Proof.
  induction s as [|a s IH].
  - change (EmptyString +:+ t) with t. by destruct t.
  - change (String a s +:+ t) with (String a (s +:+ t)). cbn [String.prefix].
    destruct (Ascii.ascii_dec a a); [exact IH|done].
Qed.

Lemma enabled_key_in_section id :
  in_section "anycode.language" ("anycode." +:+ enabled_key id) = true.
Proof.
  unfold in_section. apply orb_true_iff. right.
  change ("anycode." +:+ enabled_key id)
    with (("anycode.language" +:+ ".") +:+ (id +:+ ".enabled")).
  apply prefix_app.
Qed.

Lemma enabled_key_lookup (old new : gmap string jsval) id :
  affectsConfiguration old new = false →
  new !! ("anycode." +:+ enabled_key id) = old !! ("anycode." +:+ enabled_key id).
Proof.
  unfold affectsConfiguration. intros Hf.
  apply bool_decide_eq_false in Hf. apply dec_stable in Hf.
  set (P := λ kv : string * jsval, in_section "anycode.language" kv.1 = true) in *.
  assert (HP : ∀ v, P ("anycode." +:+ enabled_key id, v))
    by (intros v; apply enabled_key_in_section).
  assert (Hlk : ∀ m : gmap string jsval,
    filter P m !! ("anycode." +:+ enabled_key id) = m !! ("anycode." +:+ enabled_key id)).
  { intros m. destruct (m !! _) as [v|] eqn:Hm.
    - by apply map_lookup_filter_Some_2.
    - apply map_lookup_filter_None_2. by left. }
  by rewrite <- (Hlk new), <- (Hlk old), Hf.
Qed.

Lemma keep_unaffected exts (old new : gmap string jsval) item :
  affectsConfiguration old new = false →
  keep {| extensions := exts; settings := new |} item
  = keep {| extensions := exts; settings := old |} item.
Proof.
  intros Hf. unfold keep, config_get. cbn [settings].
  change ("anycode" +:+ "." +:+ enabled_key (languageId item))
    with ("anycode." +:+ enabled_key (languageId item)).
  by rewrite (enabled_key_lookup old new _ Hf).
Qed.

Lemma step_fresh uri w ev :
  cache_fresh uri (env w) (registry w) →
  cache_fresh uri (env (step w ev)) (registry (step w ev)).
Proof.
  intros Hw. destruct ev as [exts|new|]; cbn [step reset_world _reset env registry].
  - destruct Hw as [Hall _]. split; cbn [_all _filteredAll]; auto.
  - destruct (affectsConfiguration _ new) eqn:Haff; cbn [env registry].
    + destruct Hw as [Hall _]. split; cbn [_all _filteredAll]; auto.
    + destruct Hw as [Hall Hc]. split; [done|].
      destruct Hc as [Hc|Hc]; [by left|right]. rewrite Hc. f_equal.
      apply filter_ext. intros item.
      rewrite (keep_unaffected _ _ _ _ Haff). by destruct (env w).
  - by apply get_fresh.
Qed.

Lemma run_fresh uri evs w :
  cache_fresh uri (env w) (registry w) →
  cache_fresh uri (env (run w evs)) (registry (run w evs)).
Proof.
  revert w. induction evs as [|ev evs IH]; intros w Hw; [done|].
  apply IH. by apply step_fresh.
Qed.

Lemma start_fresh uri e : cache_fresh uri (env (start uri e)) (registry (start uri e)).
Proof. split; [done|by left]. Qed.

Lemma ignored_shadowed e id : id ∈ wellKnownIgnored e ↔ shadowed (extensions e) id.
Proof.
  unfold wellKnownIgnored, getExtension, shadowed.
  repeat case_bool_decide; set_solver.
Qed.

Lemma default_enabled id :
  id ∈ all_ids → contributed_default ("anycode." +:+ enabled_key id) = Some (JBool true).
Proof.
  intros Hid. unfold contributed_default.
  rewrite bool_decide_eq_true_2; [done|].
  apply list_elem_of_fmap. eauto.
Qed.

Lemma keep_spec e id item :
  flags_boolean (settings e) → languageId item = id → id ∈ all_ids →
  keep e item = true ↔
    (flag (settings e) id = Some (JBool true) ∨ flag (settings e) id = None) ∧
    ¬ shadowed (extensions e) id.
Proof.
  intros Hty <- Hid. unfold keep. rewrite <- ignored_shadowed.
  case_bool_decide as Hig.
  { split; [done|]. intros [_ ?]; done. }
  unfold config_get.
  change ("anycode" +:+ "." +:+ enabled_key (languageId item))
    with ("anycode." +:+ enabled_key (languageId item)).
  change (settings e !! ("anycode." +:+ enabled_key (languageId item)))
    with (flag (settings e) (languageId item)).
  destruct (flag (settings e) (languageId item)) as [v|] eqn:Hv.
  - destruct (Hty _ _ Hid Hv) as [b ->]. destruct b; cbn [truthy negb]; naive_solver.
  - rewrite (default_enabled _ Hid). cbn [default truthy negb]. naive_solver.
Qed.

(** Without any assumption on the type of the flags: a language is
    returned exactly when the value read for its flag is truthy and no
    companion shadows it. *)
Lemma supported_iff_truthy uri e evs item :
  let w := run (start uri e) evs in
  item ∈ (getSupportedLanguages (env w) (registry w)).1 ↔
    item ∈ table uri ∧
    truthy (config_get (env w) "anycode" (enabled_key (languageId item))) = true ∧
    ¬ shadowed (extensions (env w)) (languageId item).
Proof.
  intros w.
  destruct (get_fresh uri (env w) (registry w)) as [-> _].
  { apply run_fresh, start_fresh. }
  rewrite elem_of_filter. unfold keep. rewrite <- ignored_shadowed.
  case_bool_decide as Hig; [naive_solver|].
  destruct (truthy _); cbn [negb]; naive_solver.
Qed.

Lemma table_item_id uri item : item ∈ table uri → languageId item ∈ all_ids.
Proof.
  intros Hin. rewrite <- (table_ids uri). apply list_elem_of_fmap. eauto.
Qed.

(** C10: whatever has happened to the registry since its construction,
    [getSupportedLanguages] answers with a sublist of the nine-entry
    table, in the table's order; the answer is then cached, so a second
    call (and every later one, until a reset) returns the same list and
    leaves the registry as it is, whatever the editor's state has
    become; [getSupportedLanguagesAsSelector] returns the identifiers
    of that list in the same order. *)
Theorem supported_languages_sublist_cached
    (uri : string) (e : Env) (evs : list event) (e1 e2 : Env) :
  let this := registry (run (start uri e) evs) in
  let r := getSupportedLanguages e1 this in
  languageId <$> table uri
    = ["c"; "cpp"; "csharp"; "go"; "java"; "php"; "python"; "rust"; "typescript"] ∧
  sublist r.1 (table uri) ∧
  sublist (languageId <$> r.1)
    ["c"; "cpp"; "csharp"; "go"; "java"; "php"; "python"; "rust"; "typescript"] ∧
  getSupportedLanguages e2 r.2 = (r.1, r.2) ∧
  getSupportedLanguagesAsSelector e1 this = (languageId <$> r.1, r.2) ∧
  getSupportedLanguagesAsSelector e2 r.2 = (languageId <$> r.1, r.2).
Proof.
  intros this r.
  pose proof (cache_fresh_sub _ _ _ (run_fresh uri evs _ (start_fresh uri e)))
    as [Hall Hsub].
  fold this in Hall, Hsub.
  assert (Hr : sublist r.1 (table uri)).
  { subst r. unfold getSupportedLanguages.
    destruct (_filteredAll this) as [l|] eqn:Hc; cbn [fst].
    - by apply Hsub.
    - rewrite Hall. apply filter_sublist. }
  assert (Hagain : getSupportedLanguages e2 r.2 = (r.1, r.2)).
  { subst r. unfold getSupportedLanguages at 2 3 4.
    destruct (_filteredAll this) as [l|] eqn:Hc; cbn [fst snd].
    - unfold getSupportedLanguages. by rewrite Hc.
    - reflexivity. }
  split_and!; try done.
  - change (sublist (languageId <$> r.1) (languageId <$> table uri)).
    by apply fmap_sublist.
  - unfold getSupportedLanguagesAsSelector. fold r. by destruct r.
  - unfold getSupportedLanguagesAsSelector. by rewrite Hagain.
Qed.

(** With flags that are booleans where set, as the configuration
    surface types them: a language of the static table is returned
    exactly when its flag is [true] or absent and no shadowing
    companion extension is installed. *)
Theorem supported_iff_enabled_and_not_shadowed
    (uri : string) (e : Env) (evs : list event) (item : LanguageInfo) :
  let w := run (start uri e) evs in
  flags_boolean (settings (env w)) →
  item ∈ table uri →
  item ∈ (getSupportedLanguages (env w) (registry w)).1 ↔
    (flag (settings (env w)) (languageId item) = Some (JBool true) ∨
     flag (settings (env w)) (languageId item) = None) ∧
    ¬ ((languageId item = "typescript" ∧
        "vscode.typescript-language-features" ∈ extensions (env w)) ∨
       (languageId item = "python" ∧ "ms-python.python" ∈ extensions (env w))).
Proof.
  intros w Hty Hin.
  destruct (get_fresh uri (env w) (registry w)) as [-> _].
  { apply run_fresh, start_fresh. }
  rewrite elem_of_filter.
  rewrite (keep_spec (env w) (languageId item) item Hty eq_refl (table_item_id _ _ Hin)).
  unfold shadowed. tauto.
Qed.

(** The sample editor after its three events: Go is switched off and
    is not returned. *)
Lemma supported_iff_enabled_and_not_shadowed_witness :
  let w := run (start "ext" sample_env) sample_events in
  flags_boolean (settings (env w)) ∧
  go_info ∈ table "ext" ∧
  (go_info ∈ (getSupportedLanguages (env w) (registry w)).1 ↔
    (flag (settings (env w)) "go" = Some (JBool true) ∨
     flag (settings (env w)) "go" = None) ∧
    ¬ (("go" = "typescript" ∧
        "vscode.typescript-language-features" ∈ extensions (env w)) ∨
       ("go" = "python" ∧ "ms-python.python" ∈ extensions (env w)))).
Proof.
  intros w.
  assert (Hty : flags_boolean (settings (env w))).
  { intros id v Hid Hv.
    assert (Hs : settings (env w) = {["anycode.language.go.enabled" := JBool false]}).
    { unfold w, sample_events, run. cbn [foldl step].
      destruct (affectsConfiguration _ _); reflexivity. }
    unfold flag in Hv. rewrite Hs in Hv.
    apply lookup_singleton_Some in Hv as [_ <-]. eauto. }
  assert (Hin : go_info ∈ table "ext") by (do 3 constructor 2; constructor 1).
  split; [exact Hty|]. split; [exact Hin|].
  exact (supported_iff_enabled_and_not_shadowed "ext" sample_env sample_events go_info
           Hty Hin).
Defined.

(** The flag as the filter reads it: the user's value if there is
    one, the contributed default otherwise. *)
Lemma flag_config_get e id v :
  flag (settings e) id = Some v → config_get e "anycode" (enabled_key id) = v.
Proof.
  unfold flag, config_get. intros Hf.
  change ("anycode" +:+ "." +:+ enabled_key id)
    with ("anycode.language." +:+ id +:+ ".enabled").
  by rewrite Hf.
Qed.

Lemma absent_flag_config_get e id :
  id ∈ all_ids → flag (settings e) id = None →
  config_get e "anycode" (enabled_key id) = JBool true.
Proof.
  unfold flag, config_get. intros Hid Hf.
  change ("anycode" +:+ "." +:+ enabled_key id)
    with ("anycode.language." +:+ id +:+ ".enabled").
  rewrite Hf.
  change ("anycode.language." +:+ id +:+ ".enabled") with ("anycode." +:+ enabled_key id).
  by rewrite (default_enabled _ Hid).
Qed.

(** C2, as amended: at every moment of the registry's life (any series
    of extension changes, configuration changes and reads since its
    construction), a language of the static table is returned by
    [getSupportedLanguages] exactly when its [enabled] flag is absent
    (it then reads as its contributed default) or holds a truthy value,
    [true] or any other, and no shadowing companion extension is
    installed: [vscode.typescript-language-features] for [typescript],
    [ms-python.python] for [python]. *)
Theorem supported_iff_flag_truthy_and_not_shadowed
    (uri : string) (e : Env) (evs : list event) (item : LanguageInfo) :
  let w := run (start uri e) evs in
  item ∈ table uri →
  item ∈ (getSupportedLanguages (env w) (registry w)).1 ↔
    (flag (settings (env w)) (languageId item) = None ∨
     ∃ v, flag (settings (env w)) (languageId item) = Some v ∧ truthy v = true) ∧
    ¬ ((languageId item = "typescript" ∧
        "vscode.typescript-language-features" ∈ extensions (env w)) ∨
       (languageId item = "python" ∧ "ms-python.python" ∈ extensions (env w))).
Proof.
  intros w Hin.
  pose proof (supported_iff_truthy uri e evs item) as H. cbv zeta in H. fold w in H.
  rewrite H. clear H. unfold shadowed.
  destruct (flag (settings (env w)) (languageId item)) as [v|] eqn:Hf.
  - rewrite (flag_config_get _ _ _ Hf). split.
    + intros (_ & Ht & Hs). split; [right; eauto|done].
    + intros [[[=]|(v' & [= <-] & Ht)] Hs]. done.
  - rewrite (absent_flag_config_get _ _ (table_item_id _ _ Hin) Hf). split.
    + intros (_ & _ & Hs). split; [by left|done].
    + intros [_ Hs]. done.
Qed.

(** The sample editor after its three events: Go is switched off and
    is not returned; C, whose flag is absent by then, is. *)
Lemma supported_iff_flag_truthy_and_not_shadowed_witness :
  let w := run (start "ext" sample_env) sample_events in
  go_info ∈ table "ext" ∧
  flag (settings (env w)) "go" = Some (JBool false) ∧
  go_info ∉ (getSupportedLanguages (env w) (registry w)).1.
Proof.
  intros w.
  assert (Hin : go_info ∈ table "ext") by (do 3 constructor 2; constructor 1).
  assert (Hf : flag (settings (env w)) "go" = Some (JBool false)) by (by vm_compute).
  split; [exact Hin|]. split; [exact Hf|].
  intros Hgo.
  pose proof (Hf : flag (settings (env (run (start "ext" sample_env) sample_events)))
                     (languageId go_info) = Some (JBool false)) as Hf'.
  apply (supported_iff_flag_truthy_and_not_shadowed "ext" sample_env sample_events
           go_info Hin) in Hgo as [[Hnone|(v & Hv & Ht)] _].
  - rewrite Hf' in Hnone. discriminate Hnone.
  - rewrite Hf' in Hv. injection Hv as <-. discriminate Ht.
Defined.

(** C2, as the specification words it, fails: a flag set to the string
    [yes] is neither [true] nor absent, and the language is returned. *)
Lemma truthy_flag_enables_language : ¬ enabled_iff_true_or_absent.
Proof.
  intros Hspec.
  assert (Hin : go_info ∈ table "ext") by (do 3 constructor 2; constructor 1).
  pose proof (Hspec "ext" lenient_env [Read] go_info Hin) as [Hto _].
  destruct Hto as [[Htrue|Hnone] _].
  - apply (supported_iff_truthy "ext" lenient_env [Read] go_info).
    split; [exact Hin|]. split; [by vm_compute|].
    intros [[Hid _]|[Hid _]]; discriminate Hid.
  - discriminate Htrue.
  - discriminate Hnone.
Qed.

(** *** The cache and what the filter reads *)

(** X1: the cache is never stale: whatever extension changes,
    configuration changes and reads have happened since construction,
    a cached list is the table filtered under the editor's present
    state. *)
Theorem cache_never_stale
    (uri : string) (e : Env) (evs : list event) (cached : list LanguageInfo) :
  let w := run (start uri e) evs in
  _filteredAll (registry w) = Some cached →
  cached = List.filter (keep (env w)) (table uri) ∧ _all (registry w) = table uri.
Proof.
  intros w Hc.
  destruct (run_fresh uri evs _ (start_fresh uri e)) as [Hall Hfresh].
  fold w in Hall, Hfresh. split; [|done].
  destruct Hfresh as [Hf|Hf]; rewrite Hf in Hc; by simplify_eq.
Qed.

Lemma cache_never_stale_witness :
  let w := run (start "ext" sample_env) sample_events in
  ∃ cached,
    _filteredAll (registry w) = Some cached ∧
    cached = List.filter (keep (env w)) (table "ext") ∧
    _all (registry w) = table "ext".
Proof.
  eexists. split; [by vm_compute|].
  apply (cache_never_stale "ext" sample_env sample_events). by vm_compute.
Defined.

(** X2: the flag is read by its truthiness, not as a boolean: when the
    user has written any JSON value [v] for
    [anycode.language.<id>.enabled], the language is returned exactly
    when [v] is truthy and no companion shadows it; a non-empty string
    or a non-zero number switches it on, [null], [0] and the empty
    string switch it off. *)
Theorem flag_read_by_truthiness
    (uri : string) (e : Env) (evs : list event) (item : LanguageInfo) (v : jsval) :
  let w := run (start uri e) evs in
  item ∈ table uri →
  flag (settings (env w)) (languageId item) = Some v →
  item ∈ (getSupportedLanguages (env w) (registry w)).1 ↔
    truthy v = true ∧ ¬ shadowed (extensions (env w)) (languageId item).
Proof.
  intros w Hin Hf.
  pose proof (supported_iff_truthy uri e evs item) as H. cbv zeta in H. fold w in H.
  rewrite (flag_config_get _ _ _ Hf) in H. tauto.
Qed.

Lemma flag_read_by_truthiness_witness :
  let w := run (start "ext" lenient_env) [Read] in
  go_info ∈ table "ext" ∧
  flag (settings (env w)) "go" = Some (JStr "yes") ∧
  (go_info ∈ (getSupportedLanguages (env w) (registry w)).1 ↔
     truthy (JStr "yes") = true ∧ ¬ shadowed (extensions (env w)) "go").
Proof.
  assert (Hin : go_info ∈ table "ext") by (do 3 constructor 2; constructor 1).
  split; [exact Hin|]. split; [by vm_compute|].
  exact (flag_read_by_truthiness "ext" lenient_env [Read] go_info (JStr "yes") Hin eq_refl).
Defined.

(** A change that leaves every key of the section as it was does not
    affect the section. *)
Lemma section_untouched_unaffected (old new : gmap string jsval) :
  (∀ key, in_section "anycode.language" key = true → new !! key = old !! key) →
  affectsConfiguration old new = false.
Proof.
  intros Hsame. unfold affectsConfiguration. apply bool_decide_eq_false_2.
  intros Hne. apply Hne. apply map_eq. intros key.
  set (P := λ kv : string * jsval, in_section "anycode.language" kv.1 = true).
  destruct (in_section "anycode.language" key) eqn:Hkey.
  - assert (Hlk : ∀ m : gmap string jsval, filter P m !! key = m !! key).
    { intros m. destruct (m !! key) as [v|] eqn:Hm.
      - by apply map_lookup_filter_Some_2.
      - apply map_lookup_filter_None_2. by left. }
    by rewrite !Hlk, Hsame.
  - assert (Hlk : ∀ m : gmap string jsval, filter P m !! key = None).
    { intros m. apply map_lookup_filter_None_2. right. intros v _.
      unfold P. cbn [fst]. by rewrite Hkey. }
    by rewrite !Hlk.
Qed.

(** X3: a configuration change that leaves [anycode.language] and
    every key below it as they were (whatever else it changes, a key
    such as [anycode.languages.x] or [anycode.symbolIndexSize]
    included) fires no change notification, leaves the registry and its
    cache alone, and the next read answers what it answered before. *)
Theorem unrelated_setting_keeps_languages
    (uri : string) (e : Env) (evs : list event) (new : gmap string jsval) :
  let w := run (start uri e) evs in
  let w' := step w (ConfigurationChanged new) in
  (∀ key, in_section "anycode.language" key = true →
          new !! key = settings (env w) !! key) →
  fired w' = fired w ∧
  registry w' = registry w ∧
  (getSupportedLanguages (env w') (registry w')).1
  = (getSupportedLanguages (env w) (registry w)).1.
Proof.
  intros w w' Hsame.
  pose proof (section_untouched_unaffected _ _ Hsame) as Haff.
  assert (Hw : cache_fresh uri (env w) (registry w))
    by apply run_fresh, start_fresh.
  assert (Hw' : cache_fresh uri (env w') (registry w')) by by apply step_fresh.
  destruct (get_fresh _ _ _ Hw) as [-> _].
  destruct (get_fresh _ _ _ Hw') as [-> _].
  subst w'. cbn [step]. rewrite Haff. cbn [fired registry env].
  split; [done|]. split; [done|].
  apply List.filter_ext. intros item.
  destruct (env w) as [exts old]. cbn [extensions settings] in *.
  by apply keep_unaffected.
Qed.

(** The sample editor, read once; then the font size, the index size
    and a key of a section whose name merely starts alike are set. *)
Lemma unrelated_setting_keeps_languages_witness :
  let w := run (start "ext" sample_env) [Read] in
  let w' := step w (ConfigurationChanged other_settings) in
  settings (env w') ≠ settings (env w) ∧
  fired w' = fired w ∧
  registry w' = registry w ∧
  (getSupportedLanguages (env w') (registry w')).1
  = (getSupportedLanguages (env w) (registry w)).1.
Proof.
  intros w w'. split.
  - intros Heq.
    assert (Hl : settings (env w') !! "editor.fontSize" = settings (env w) !! "editor.fontSize")
      by by rewrite Heq.
    vm_compute in Hl. discriminate Hl.
  - apply (unrelated_setting_keeps_languages "ext" sample_env [Read] other_settings).
    intros key Hkey.
    change (settings (env (run (start "ext" sample_env) [Read])))
      with (settings sample_env).
    unfold other_settings.
    rewrite !lookup_insert_ne; [done|intros <-; discriminate Hkey..].
Defined.

Lemma all_ids_NoDup : NoDup all_ids.
Proof. unfold all_ids. repeat (apply NoDup_cons; split; [set_solver|]). apply NoDup_nil_2. Qed.

(** X4: the document selector never names a language twice and has at
    most nine entries, whatever the registry has been through and
    whatever the editor's state is at the call. *)
Theorem selector_has_no_duplicates
    (uri : string) (e : Env) (evs : list event) (e1 : Env) :
  let sel := (getSupportedLanguagesAsSelector e1 (registry (run (start uri e) evs))).1 in
  NoDup sel ∧ (length sel ≤ 9)%nat.
Proof.
  intros sel.
  pose proof (run_fresh uri evs _ (start_fresh uri e)) as Hw.
  apply cache_fresh_sub in Hw. destruct Hw as [Hall Hsub].
  assert (Hs : sublist sel all_ids).
  { subst sel. unfold getSupportedLanguagesAsSelector, getSupportedLanguages.
    rewrite <- (table_ids uri).
    destruct (_filteredAll _) as [l|] eqn:Hc; cbn [fst].
    - apply fmap_sublist. by apply Hsub.
    - apply fmap_sublist. rewrite Hall. apply filter_sublist. }
  split.
  - eapply sublist_NoDup; [apply all_ids_NoDup|exact Hs].
  - apply sublist_length in Hs. exact Hs.
Qed.

(** X5: only the two companion extensions matter: when the set of
    installed extensions changes without either of them coming or
    going, the change notification still fires (the listener restarts
    the server), and the next read answers what it answered before. *)
Theorem other_extensions_irrelevant
    (uri : string) (e : Env) (evs : list event) (exts' : gset string) :
  let w := run (start uri e) evs in
  let w' := step w (ExtensionsChanged exts') in
  ("vscode.typescript-language-features" ∈ exts'
     ↔ "vscode.typescript-language-features" ∈ extensions (env w)) →
  ("ms-python.python" ∈ exts' ↔ "ms-python.python" ∈ extensions (env w)) →
  fired w' = S (fired w) ∧
  _filteredAll (registry w') = None ∧
  (getSupportedLanguages (env w') (registry w')).1
  = (getSupportedLanguages (env w) (registry w)).1.
Proof.
  intros w w' Hts Hpy.
  assert (Hw : cache_fresh uri (env w) (registry w))
    by apply run_fresh, start_fresh.
  assert (Hw' : cache_fresh uri (env w') (registry w')) by by apply step_fresh.
  destruct (get_fresh _ _ _ Hw) as [-> _].
  destruct (get_fresh _ _ _ Hw') as [-> _].
  subst w'. cbn [step reset_world fired registry env _reset _filteredAll].
  split; [done|]. split; [done|].
  apply List.filter_ext. intros item.
  unfold keep, config_get. cbn [settings].
  assert (Hig : languageId item ∈ wellKnownIgnored
                  {| extensions := exts'; settings := settings (env w) |}
                ↔ languageId item ∈ wellKnownIgnored (env w)).
  { rewrite !ignored_shadowed. unfold shadowed. cbn [extensions]. tauto. }
  repeat case_bool_decide; tauto.
Qed.

Lemma other_extensions_irrelevant_witness :
  let w := run (start "ext" sample_env) [Read] in
  let w' := step w (ExtensionsChanged go_extensions) in
  fired w' = S (fired w) ∧
  _filteredAll (registry w') = None ∧
  (getSupportedLanguages (env w') (registry w')).1
  = (getSupportedLanguages (env w) (registry w)).1.
Proof.
  apply (other_extensions_irrelevant "ext" sample_env [Read] go_extensions).
  - vm_compute. set_solver.
  - vm_compute. set_solver.
Defined.

End RegistryFacts.

(** * One server instance: [_startServer], [init] and [file/read] *)

Module ClientFacts.
Import Client.

(** Stepping through an [async] body. *)

Lemma bind_await {A B} (a : A) (k : A → prog B) (m : Mem) :
  (x ← await (Return a); k x) m = k a m.
Proof. reflexivity. Qed.

Lemma bind_await_throw {A B} (err : string) (k : A → prog B) (m : Mem) :
  (x ← await (Throw err); k x) m = (m, Throw err).
Proof. reflexivity. Qed.

Lemma bind_emit {B} (e : effect) (k : unit → prog B) (m : Mem) :
  (u ← emit e; k u) m = k tt {| workspaceState := workspaceState m; out := out m ++ [e] |}.
Proof. reflexivity. Qed.

Lemma bind_get {B} (key : string) (d : jsval) (k : jsval → prog B) (m : Mem) :
  (v ← workspaceState_get key d; k v) m
  = k (match workspaceState m !! key with
       | Some v => if decide (v = JUndefined) then d else v
       | None => d
       end) m.
Proof. reflexivity. Qed.

Lemma bind_update {B} (key : string) (v : jsval) (k : unit → prog B) (m : Mem) :
  (u ← workspaceState_update key v; k u) m
  = k tt {| workspaceState := if decide (v = JUndefined)
                              then delete key (workspaceState m)
                              else <[key := v]> (workspaceState m);
            out := out m |}.
Proof. reflexivity. Qed.

(** Steps over the awaits, emits and memento calls at the head of the goal. *)
Ltac async :=
  repeat first
    [ rewrite bind_await | rewrite bind_await_throw | rewrite bind_emit
    | rewrite bind_get | rewrite bind_update ].

(** [take] against the library's [firstn]. *)

Lemma take_firstn {A} (l : list A) (n : Z) : take n l = firstn (Z.to_nat n) l.
Proof.
  revert n. induction l as [|x l IH]; intros n; cbn [take].
  - by rewrite firstn_nil.
  - destruct (Z.leb_spec n 0) as [Hn|Hn].
    + by replace (Z.to_nat n) with 0%nat by lia.
    + replace (Z.to_nat n) with (S (Z.to_nat (n - 1))) by lia.
      cbn [firstn]. by rewrite IH.
Qed.

Lemma take_length {A} (l : list A) (n : Z) :
  0 ≤ n ≤ Z.of_nat (length l) → Z.of_nat (length (take n l)) = n.
Proof. intros Hn. rewrite take_firstn, length_firstn. lia. Qed.

Lemma take_all {A} (l : list A) (n : Z) : Z.of_nat (length l) ≤ n → take n l = l.
Proof. intros Hn. rewrite take_firstn. apply firstn_all2. lia. Qed.

Lemma slice0_take {A} (l : list A) (size : Z) :
  0 ≤ size → slice0 l size = take (Z.min (Z.of_nat (length l)) size) l.
Proof.
  intros Hs. unfold slice0.
  destruct (Z.ltb_spec size 0); [lia|]. by rewrite Z.min_comm.
Qed.

Lemma lift_limit_nonneg h all size cap hw :
  0 ≤ size → lift_limit h all size = Return (cap, hw) → 0 ≤ cap.
Proof.
  unfold lift_limit. intros Hs.
  destruct (50 <? _); [|intros [= <- <-]; done].
  destruct (_canInitWithoutLimits h) as [[]|]; cbn; intros [= <- <-]; [|done].
  unfold MAX_SAFE_INTEGER. lia.
Qed.

(** One run of [init], once the files are found and the cap is known. *)
Lemma init_run h pattern selector size all cap hw m :
  0 ≤ size →
  findFiles h = Return all →
  lift_limit h all size = Return (cap, hw) →
  init h pattern selector size m =
    ({| workspaceState := workspaceState m;
        out := out m ++ init_effects h pattern selector all cap hw |},
     sendRequest h (Uri_toString <$> take (Z.min (Z.of_nat (length all)) cap) all)).
Proof.
  intros Hs Hfind Hlift. unfold init.
  rewrite Hfind, bind_await, Hlift, bind_await. cbn beta iota.
  rewrite (slice0_take all cap (lift_limit_nonneg _ _ _ _ _ Hs Hlift)).
  set (uris := take _ all). rewrite bind_emit, bind_emit.
  assert (Hlen : Z.of_nat (length uris) = Z.min (Z.of_nat (length all)) cap).
  { apply take_length. pose proof (lift_limit_nonneg _ _ _ _ _ Hs Hlift). lia. }
  unfold init_effects. fold uris. rewrite Hlen.
  destruct (sendRequest h _) as [[]|err].
  - rewrite bind_await, bind_emit. unfold emit. cbn [out workspaceState].
    by rewrite <- !app_assoc.
  - rewrite bind_await_throw. cbn [out workspaceState]. by rewrite <- !app_assoc.
Qed.

Lemma init_aborts h pattern selector size all err m :
  findFiles h = Return all →
  lift_limit h all size = Throw err →
  init h pattern selector size m = (m, Throw err).
Proof.
  intros Hfind Hlift. unfold init.
  rewrite Hfind. async. rewrite Hlift. by async.
Qed.

(** What a start with a language enabled and a client that gets ready
    resolves to: the [init] run with the configured cap, and the
    [file/read] handler. *)
Lemma startServer_running h m :
  getSupportedLanguages h ≠ [] →
  onReady h = Return tt →
  (_startServer h m).2
  = Return (Server (init h (langPattern (getSupportedLanguages h))
                      (getSupportedLanguagesAsSelector h) (configured_size h))
                   (file_read h)).
Proof.
  intros Hsome Hready. unfold _startServer, getSupportedLanguagesAsSelector.
  destruct (getSupportedLanguages h) as [|entry langs] eqn:Hl; [done|].
  cbn [fmap list_fmap length Nat.eqb].
  unfold workspaceState_get, workspaceState_update, mbind, prog_bind, emit, await.
  cbn [snd]. by rewrite Hready.
Qed.

(** The two scenarios of the specification: a cap of 10 and 3 files;
    a cap of 2 and 100 files in a remote workspace without the
    companion extension. *)
Example scenario_three_files :
  out (init (sample_host [go_entry] 3 (Some 10) (Some [file_uri "/ws"]) None "r")
         "**/*.{go}" ["go"] 10 empty_mem).1
  = [ ConsoleInfo "USING 3 of 3 files for **/*.{go}";
      SendRequest "queue/init"
        ["file:///ws/f0.go"; "file:///ws/f1.go"; "file:///ws/f2.go"];
      TelemetryInit 3 3 0;
      ShowStatusAndInfo ["go"] false ].
Proof. by vm_compute. Qed.

Example scenario_hundred_files :
  out (init (sample_host [go_entry] 100 (Some 2) (Some [vfs_uri "/repo"]) None "r")
         "**/*.{go}" ["go"] 2 empty_mem).1
  = [ ConsoleInfo "USING 2 of 100 files for **/*.{go}";
      SendRequest "queue/init" ["file:///ws/f0.go"; "file:///ws/f1.go"];
      TelemetryInit 100 2 0;
      ShowStatusAndInfo ["go"] false ].
Proof. by vm_compute. Qed.

(** What [_startServer] hands out when it resolves to a running
    instance: the [init] run over its own pattern and selector, with
    the cap read from the configuration, and the [file/read] handler. *)
Lemma startServer_handle h m0 initialize onFileRead :
  (_startServer h m0).2 = Return (Server initialize onFileRead) →
  initialize = init h (langPattern (getSupportedLanguages h))
                 (getSupportedLanguagesAsSelector h) (configured_size h) ∧
  onFileRead = file_read h.
Proof.
  intros Hstart.
  destruct (decide (getSupportedLanguages h = [])) as [Hnone|Hsome].
  { unfold _startServer, getSupportedLanguagesAsSelector in Hstart.
    rewrite Hnone in Hstart. discriminate Hstart. }
  destruct (onReady h) as [[]|err] eqn:Hready.
  - rewrite (startServer_running h m0 Hsome Hready) in Hstart.
    by injection Hstart as <- <-.
  - exfalso. revert Hstart.
    unfold _startServer, getSupportedLanguagesAsSelector.
    destruct (getSupportedLanguages h) as [|entry langs]; [done|].
    cbn [fmap list_fmap length Nat.eqb].
    unfold workspaceState_get, workspaceState_update, mbind, prog_bind, emit, await.
    cbn [snd]. by rewrite Hready.
Qed.

Lemma configured_size_cases h :
  configured_size h = match symbolIndexSize h with
                      | Some c => if c <? 0 then 0 else c
                      | None => 500
                      end.
Proof.
  unfold configured_size. destruct (symbolIndexSize h) as [c|].
  - change (default 500 (Some c)) with c. destruct (Z.ltb_spec c 0); lia.
  - change (default 500 None) with 500. lia.
Qed.

Lemma init_run_submits h pattern selector size all cap hw m :
  0 ≤ size →
  findFiles h = Return all →
  lift_limit h all size = Return (cap, hw) →
  init h pattern selector size m = submits h pattern selector all cap hw m.
Proof.
  intros Hs Hfind Hlift.
  rewrite (init_run h pattern selector size all cap hw m Hs Hfind Hlift).
  pose proof (lift_limit_nonneg _ _ _ _ _ Hs Hlift) as Hcap.
  unfold submits, init_effects. rewrite take_firstn.
  assert (Hlen : Z.of_nat (length (firstn (Z.to_nat (Z.min (Z.of_nat (length all)) cap)) all))
                 = Z.min (Z.of_nat (length all)) cap)
    by (rewrite length_firstn; lia).
  by rewrite Hlen.
Qed.

(** C1, as amended: the [init] run that [_startServer] hands out works
    with [configured_size], the configured cap [C] (the
    [symbolIndexSize] setting, 500 when unset, 0 when negative). With [F] files discovered: when
    [F ≤ 50], and when [F > 50] and the capability query answers no, it
    submits the first [min F C] files in discovery order; when [F > 50]
    and the query answers yes, the cap is [MAX_SAFE_INTEGER], which no
    array length reaches, and all files are submitted. The telemetry
    event reports [numOfFiles = F] and [indexSize] the number
    submitted. When [F > 50] and the query throws, the run rejects
    with the query's error and submits nothing. *)
Theorem init_submits_capped_prefix
    (h : Host) (m0 m : Mem) (initialize : prog unit)
    (onFileRead : string → prog (list byte)) (all : list Uri) :
  (_startServer h m0).2 = Return (Server initialize onFileRead) →
  findFiles h = Return all →
  Z.of_nat (length all) ≤ MAX_ARRAY_LENGTH →
  let F := Z.of_nat (length all) in
  let C := match symbolIndexSize h with
           | Some c => if c <? 0 then 0 else c
           | None => 500
           end in
  let pattern := langPattern (getSupportedLanguages h) in
  let selector := getSupportedLanguagesAsSelector h in
  initialize = init h pattern selector (configured_size h) ∧
  configured_size h = C ∧
  (F ≤ 50 → initialize m = submits h pattern selector all C 0 m) ∧
  (50 < F → _canInitWithoutLimits h = Return true →
     initialize m = submits h pattern selector all MAX_SAFE_INTEGER 1 m ∧
     firstn (Z.to_nat (Z.min F MAX_SAFE_INTEGER)) all = all) ∧
  (50 < F → _canInitWithoutLimits h = Return false →
     initialize m = submits h pattern selector all C 0 m) ∧
  (∀ err, 50 < F → _canInitWithoutLimits h = Throw err →
     initialize m = (m, Throw err)) ∧
  Z.of_nat (length (firstn (Z.to_nat (Z.min F C)) all)) = Z.min F C.
Proof.
  intros Hstart Hfind Hlen F C pattern selector.
  destruct (startServer_handle h m0 initialize onFileRead Hstart) as [-> _].
  fold pattern selector.
  split; [done|]. split; [apply configured_size_cases|].
  rewrite (configured_size_cases h). fold C.
  assert (HC : 0 ≤ C).
  { subst C. destruct (symbolIndexSize h) as [c|]; [|lia].
    destruct (Z.ltb_spec c 0); lia. }
  split_and!.
  - intros HF. apply init_run_submits; [done..|].
    unfold lift_limit. fold F. destruct (Z.ltb_spec 50 F); [lia|done].
  - intros HF Hq. split.
    + apply init_run_submits; [done..|].
      unfold lift_limit. fold F. destruct (Z.ltb_spec 50 F); [|lia]. by rewrite Hq.
    + apply firstn_all2. unfold MAX_ARRAY_LENGTH, MAX_SAFE_INTEGER in *. lia.
  - intros HF Hq. apply init_run_submits; [done..|].
    unfold lift_limit. fold F. destruct (Z.ltb_spec 50 F); [|lia]. by rewrite Hq.
  - intros err HF Hq. apply (init_aborts h pattern selector C all err m Hfind).
    unfold lift_limit. fold F. destruct (Z.ltb_spec 50 F); [|lia]. by rewrite Hq.
  - rewrite length_firstn. lia.
Qed.

(** A local workspace with 100 files and a cap of 2: the query answers
    yes, the cap is lifted and all 100 files are submitted. *)
Lemma init_submits_capped_prefix_witness :
  (_startServer local_host empty_mem).2
    = Return (Server (init local_host "**/*.{go}" ["go"] 2) (file_read local_host)) ∧
  _canInitWithoutLimits local_host = Return true ∧
  ∃ all, findFiles local_host = Return all ∧ length all = 100%nat ∧
    init local_host "**/*.{go}" ["go"] 2 empty_mem
    = submits local_host "**/*.{go}" ["go"] all MAX_SAFE_INTEGER 1 empty_mem ∧
    firstn (Z.to_nat (Z.min 100 MAX_SAFE_INTEGER)) all = all.
Proof.
  assert (Hstart : (_startServer local_host empty_mem).2
    = Return (Server (init local_host "**/*.{go}" ["go"] 2) (file_read local_host)))
    by reflexivity.
  split; [exact Hstart|]. split; [reflexivity|].
  exists ((λ i, file_uri ("/ws/f" +:+ pretty i +:+ ".go")) <$> seq 0 100).
  split; [reflexivity|]. split; [by vm_compute|].
  destruct (init_submits_capped_prefix local_host empty_mem empty_mem _ _ _
              Hstart eq_refl ltac:(by vm_compute)) as (_ & _ & _ & Hyes & _).
  apply Hyes; [by vm_compute|reflexivity].
Defined.

(** C1, as the specification words it for every run, fails: with 100
    files found and a companion that fails while loading the contents,
    the query throws, [init] rejects and no [queue/init] request is
    sent, where the rule has the first 2 files submitted. *)
Lemma throwing_query_submits_nothing : ¬ every_run_submits_capped_prefix.
Proof.
  intros Hall.
  pose proof (Hall rate_limited_host "**/*.{go}" ["go"]
                ((λ i, file_uri ("/ws/f" +:+ pretty i +:+ ".go")) <$> seq 0 100)
                empty_mem eq_refl ltac:(by vm_compute)) as Hsent.
  cbv zeta in Hsent.
  rewrite (init_aborts rate_limited_host "**/*.{go}" ["go"]
             (configured_size rate_limited_host) _ "rate limit exceeded" empty_mem
             eq_refl) in Hsent by (by vm_compute).
  by apply not_elem_of_nil in Hsent.
Qed.

(** C7: with no language enabled, [_startServer] logs one line and
    resolves to the empty placeholder: it does not reject, and it
    creates neither a file watcher nor a language client, nor starts
    one. *)
Theorem no_languages_no_server (h : Host) (m : Mem) :
  getSupportedLanguages h = [] →
  _startServer h m =
    ({| workspaceState := workspaceState m;
        out := out m ++ [ConsoleLog "[anycode] NO supported languages, no server needed"] |},
     Return NoServer).
Proof.
  intros Hnone. unfold _startServer, getSupportedLanguagesAsSelector.
  by rewrite Hnone.
Qed.

(** A start with nothing enabled, on a fresh workspace. *)
Lemma no_languages_no_server_witness :
  getSupportedLanguages idle_host = [] ∧
  _startServer idle_host empty_mem =
    ({| workspaceState := ∅;
        out := [ConsoleLog "[anycode] NO supported languages, no server needed"] |},
     Return NoServer).
Proof.
  split; [reflexivity|].
  exact (no_languages_no_server idle_host empty_mem eq_refl).
Defined.

(** The capability query answers no, without throwing, in each of the
    cases its comments name. *)
Lemma query_answers_no_without_folder h :
  workspaceFolders h = None → _canInitWithoutLimits h = Return false.
Proof. intros Hf. unfold _canInitWithoutLimits. by rewrite Hf. Qed.

Lemma query_answers_no_without_api h folders folder rest :
  workspaceFolders h = Some folders →
  List.filter is_vfs folders = folder :: rest →
  (_getRemoteHubExtension h = None ∨
   ∃ ext, _getRemoteHubExtension h = Some ext ∧
          (activate ext = Return None ∨
           activate ext = Return (Some {| loadWorkspaceContents := None |}))) →
  _canInitWithoutLimits h = Return false.
Proof.
  intros Hf Hr Hhub. unfold _canInitWithoutLimits. rewrite Hf, Hr. cbn [length Nat.eqb].
  destruct Hhub as [->|(ext & -> & [->| ->])]; reflexivity.
Qed.

Lemma query_answers_no_when_unloadable h folders folder rest ext load :
  workspaceFolders h = Some folders →
  List.filter is_vfs folders = folder :: rest →
  _getRemoteHubExtension h = Some ext →
  activate ext = Return (Some {| loadWorkspaceContents := Some load |}) →
  load_all load (folder :: rest) = Return false →
  _canInitWithoutLimits h = Return false.
Proof.
  intros Hf Hr Hhub Hact Hload. unfold _canInitWithoutLimits.
  rewrite Hf, Hr, Hhub, Hact. cbn [length Nat.eqb]. exact Hload.
Qed.

(** C6, as the code has it: when the capability query answers no (no
    workspace folder, no companion extension, an extension without
    [loadWorkspaceContents], a folder whose contents could not be
    loaded), the cap stays at its configured value and [init] goes on
    to send [queue/init] with the first [min F C] files; it rejects only
    if that request does. *)
Theorem negative_answer_keeps_configured_cap
    (h : Host) (pattern : string) (selector : list string) (all : list Uri) (m : Mem) :
  findFiles h = Return all →
  _canInitWithoutLimits h = Return false →
  let F := Z.of_nat (length all) in
  let C := Z.max 0 (default 500 (symbolIndexSize h)) in
  lift_limit h all C = Return (C, 0) ∧
  init h pattern selector C m =
    ({| workspaceState := workspaceState m;
        out := out m ++ init_effects h pattern selector all C 0 |},
     sendRequest h (Uri_toString <$> take (Z.min F C) all)) ∧
  SendRequest "queue/init" (Uri_toString <$> take (Z.min F C) all)
    ∈ out (init h pattern selector C m).1.
Proof.
  intros Hfind Hq F C.
  assert (HC : 0 ≤ C) by (subst C; lia).
  assert (Hlift : lift_limit h all C = Return (C, 0)).
  { unfold lift_limit. rewrite Hq. by destruct (50 <? _). }
  split; [done|].
  rewrite (init_run h pattern selector C all C 0 m HC Hfind Hlift).
  split; [done|]. cbn [fst out]. unfold init_effects.
  apply elem_of_app. right. apply elem_of_app. left.
  apply list_elem_of_further, list_elem_of_here.
Qed.

(** A remote workspace whose contents cannot be loaded: 2 of 100 files
    are sent. *)
Lemma negative_answer_keeps_configured_cap_witness :
  findFiles unloadable_host
    = Return ((λ i, file_uri ("/ws/f" +:+ pretty i +:+ ".go")) <$> seq 0 100) ∧
  _canInitWithoutLimits unloadable_host = Return false ∧
  out (init unloadable_host "**/*.{go}" ["go"] 2 empty_mem).1
    = [ ConsoleInfo "USING 2 of 100 files for **/*.{go}";
        SendRequest "queue/init" ["file:///ws/f0.go"; "file:///ws/f1.go"];
        TelemetryInit 100 2 0;
        ShowStatusAndInfo ["go"] true ].
Proof.
  split; [reflexivity|]. split; [reflexivity|].
  destruct (negative_answer_keeps_configured_cap unloadable_host "**/*.{go}" ["go"] _
              empty_mem eq_refl eq_refl) as (_ & Hrun & _).
  change (Z.max 0 (default 500 (symbolIndexSize unloadable_host))) with 2 in Hrun.
  rewrite Hrun. by vm_compute.
Defined.

(** C6, as the specification words it, fails: a companion extension
    that throws on activation makes [init] reject before anything is
    sent. *)
Lemma query_failure_not_absorbed : ¬ query_failure_absorbed.
Proof.
  intros Habs.
  destruct (Habs broken_hub_host "**/*.{go}" ["go"]
              ((λ i, file_uri ("/ws/f" +:+ pretty i +:+ ".go")) <$> seq 0 100)
              empty_mem "activation failed")
    as (m' & Hrun & _).
  - reflexivity.
  - by vm_compute.
  - done.
  - reflexivity.
  - assert (Hab := init_aborts broken_hub_host "**/*.{go}" ["go"]
                     (configured_size broken_hub_host) _ "activation failed" empty_mem
                     eq_refl).
    rewrite Hab in Hrun; [done|by vm_compute].
Qed.

(** The database name. *)

Lemma stored_or_candidate (m : Mem) (d : jsval) :
  match workspaceState m !! "dbName" with
  | Some v => if decide (v = JUndefined) then d else v
  | None => d
  end = default d (persisted m).
Proof.
  unfold persisted. destruct (workspaceState m !! "dbName") as [v|]; [|done].
  by destruct (decide (v = JUndefined)).
Qed.

Lemma persisted_defined (m : Mem) (v : jsval) : persisted m = Some v → v ≠ JUndefined.
Proof.
  unfold persisted. destruct (workspaceState m !! "dbName") as [w|]; [|done].
  destruct (decide (w = JUndefined)); [done|]. by intros [= <-].
Qed.

(** One start with nothing enabled leaves names and memento alone. *)
Lemma start_idle h m :
  has_languages h = false →
  database_names (_startServer h m).1 = database_names m ∧
  persisted (_startServer h m).1 = persisted m.
Proof.
  unfold has_languages, _startServer. intros Hno.
  apply negb_false_iff in Hno. rewrite Hno. async.
  cbn [fst mret prog_ret]. split; [|done].
  unfold database_names. cbn [out]. rewrite omap_app. cbn [omap list_omap].
  by rewrite app_nil_r.
Qed.

(** One start that reaches the allocation uses the stored name, or its
    own candidate when nothing is stored, and stores what it uses. *)
Lemma start_names h m :
  has_languages h = true →
  let name := default (JStr ("anycode_" +:+ random h)) (persisted m) in
  database_names (_startServer h m).1 = (database_names m ++ [name])%list ∧
  persisted (_startServer h m).1 = Some name.
Proof.
  intros Hyes name. unfold has_languages in Hyes. unfold _startServer.
  apply negb_true_iff in Hyes. rewrite Hyes.
  rewrite bind_get, stored_or_candidate. fold name.
  assert (Hdef : name ≠ JUndefined).
  { subst name. destruct (persisted m) as [v|] eqn:Hp; [|done].
    by apply persisted_defined in Hp. }
  rewrite bind_update. destruct (decide (name = JUndefined)) as [|_]; [done|].
  rewrite !bind_emit. cbn [out workspaceState].
  destruct (onReady h) as [[]|err].
  - rewrite bind_await, !bind_emit. cbn [fst mret prog_ret out workspaceState].
    split.
    + unfold database_names. cbn [out].
      rewrite !omap_app. cbn [omap list_omap initializationOptions databaseName].
      by rewrite !app_nil_r.
    + unfold persisted. cbn [workspaceState]. rewrite lookup_insert_eq.
      by destruct (decide (name = JUndefined)).
  - rewrite bind_await_throw. cbn [fst out workspaceState].
    split.
    + unfold database_names. cbn [out].
      rewrite !omap_app. cbn [omap list_omap initializationOptions databaseName].
      by rewrite !app_nil_r.
    + unfold persisted. cbn [workspaceState]. rewrite lookup_insert_eq.
      by destruct (decide (name = JUndefined)).
Qed.

Lemma settled_name_stored hs m v : persisted m = Some v → settled_name hs m = v.
Proof. unfold settled_name. by intros ->. Qed.

Lemma start_all_names hs : ∀ m,
  database_names (start_all hs m)
    = (database_names m
       ++ replicate (length (List.filter has_languages hs)) (settled_name hs m))%list ∧
  (List.filter has_languages hs ≠ [] → persisted (start_all hs m) = Some (settled_name hs m)) ∧
  (List.filter has_languages hs = [] → persisted (start_all hs m) = persisted m).
Proof.
  induction hs as [|h hs IH]; intros m; cbn [start_all List.filter].
  - cbn [length replicate]. by rewrite app_nil_r.
  - destruct (IH (_startServer h m).1) as (IHn & IHp & IHq).
    destruct (has_languages h) eqn:Hh.
    + destruct (start_names h m Hh) as [Hn Hp]. cbn zeta in Hn, Hp.
      assert (Hname : settled_name (h :: hs) m
                      = default (JStr ("anycode_" +:+ random h)) (persisted m)).
      { unfold settled_name. cbn [List.filter]. rewrite Hh. by destruct (persisted m). }
      rewrite <- Hname in Hn, Hp.
      rewrite (settled_name_stored hs _ _ Hp) in IHn, IHp.
      split_and!.
      * rewrite IHn, Hn. cbn [length replicate]. by rewrite <- app_assoc.
      * intros _. destruct (List.filter has_languages hs) eqn:Hf.
        -- by rewrite (IHq eq_refl).
        -- by apply IHp.
      * done.
    + destruct (start_idle h m Hh) as [Hn Hp].
      assert (Hname : settled_name hs (_startServer h m).1 = settled_name (h :: hs) m).
      { unfold settled_name. cbn [List.filter]. by rewrite Hh, Hp. }
      rewrite Hname in IHn, IHp. rewrite Hn in IHn. rewrite Hp in IHq. done.
Qed.

(** C8: over any series of server starts in one workspace, every
    language client is created with the same database name: the one
    found in the workspace state, or, when none is stored, the
    [anycode_<random>] candidate of the first start that gets that far,
    which that start stores. Later starts draw candidates of their own
    but never use them. *)
Theorem database_name_allocated_once (hs : list Host) (m : Mem) :
  database_names (start_all hs m)
    = (database_names m
       ++ replicate (length (List.filter has_languages hs)) (settled_name hs m))%list ∧
  (∀ v, persisted m = Some v →
        settled_name hs m = v ∧ persisted (start_all hs m) = Some v) ∧
  (∀ h rest, persisted m = None → List.filter has_languages hs = h :: rest →
        settled_name hs m = JStr ("anycode_" +:+ random h) ∧
        persisted (start_all hs m) = Some (JStr ("anycode_" +:+ random h))).
Proof.
  destruct (start_all_names hs m) as (Hn & Hp & Hq).
  split_and!; [done| |].
  - intros v Hv. split; [by apply settled_name_stored|].
    destruct (List.filter has_languages hs) eqn:Hf.
    + by rewrite (Hq eq_refl).
    + rewrite Hp by done. f_equal. by apply settled_name_stored.
  - intros h rest Hnone Hf.
    assert (Hname : settled_name hs m = JStr ("anycode_" +:+ random h)).
    { unfold settled_name. by rewrite Hnone, Hf. }
    split; [done|]. rewrite Hp; [by rewrite Hname|]. by rewrite Hf.
Qed.

Lemma database_name_allocated_once_witness :
  persisted empty_mem = None ∧
  database_names
    (start_all [idle_host; local_host; broken_hub_host;
                sample_host [go_entry] 3 None None None "other"] empty_mem)
  = [JStr "anycode_k3j9"; JStr "anycode_k3j9"; JStr "anycode_k3j9"].
Proof.
  split; [reflexivity|].
  destruct (database_name_allocated_once
              [idle_host; local_host; broken_hub_host;
               sample_host [go_entry] 3 None None None "other"] empty_mem)
    as (Hn & _ & _).
  rewrite Hn. reflexivity.
Defined.

(** The [file/read] handler. *)

Lemma file_read_cell h raw uri m :
  Uri_parse h raw = Return uri →
  scheme uri = "vscode-notebook-cell" →
  file_read h raw m =
    match openTextDocument h uri with
    | Return text => (m, Return (TextEncoder_encode text))
    | Throw err =>
        ({| workspaceState := workspaceState m; out := out m ++ [ConsoleWarn err] |},
         Return [])
    end.
Proof.
  intros Hparse Hcell. unfold file_read.
  rewrite Hparse, bind_await, Hcell. cbn [String.eqb Ascii.eqb Bool.eqb andb].
  unfold try_catch. by destruct (openTextDocument h uri).
Qed.

Lemma file_read_fs h raw uri m :
  Uri_parse h raw = Return uri →
  scheme uri ≠ "vscode-notebook-cell" →
  file_read h raw m =
    match isWritableFileSystem h (scheme uri) with
    | None => (m, Return [])
    | Some _ =>
        match stat_size h uri with
        | Return size =>
            if 1024 ^ 2 <? size
            then ({| workspaceState := workspaceState m;
                     out := out m ++
                       [ConsoleWarn ("IGNORING " +:+ dquote +:+ Uri_toString uri +:+ dquote
                                     +:+ " because it is too large (" +:+ pretty size
                                     +:+ "bytes)")] |},
                  Return [])
            else match readFile h uri with
                 | Return data => (m, Return data)
                 | Throw err =>
                     ({| workspaceState := workspaceState m;
                         out := out m ++ [ConsoleWarn err] |}, Return [])
                 end
        | Throw err =>
            ({| workspaceState := workspaceState m; out := out m ++ [ConsoleWarn err] |},
             Return [])
        end
    end.
Proof.
  intros Hparse Hfs. unfold file_read.
  rewrite Hparse, bind_await. apply String.eqb_neq in Hfs. rewrite Hfs.
  destruct (isWritableFileSystem h (scheme uri)); [|done].
  unfold try_catch. destruct (stat_size h uri) as [size|err]; [|done].
  rewrite bind_await. destruct (1024 ^ 2 <? size); [done|].
  by destruct (readFile h uri).
Qed.

(** Once the location string has parsed, the handler returns bytes,
    whatever the editor answers. *)
Lemma file_read_returns_when_parsed h raw uri m :
  Uri_parse h raw = Return uri → ∃ m' bytes, file_read h raw m = (m', Return bytes).
Proof.
  intros Hparse.
  destruct (decide (scheme uri = "vscode-notebook-cell")) as [Hcell|Hfs].
  - rewrite (file_read_cell h raw uri m Hparse Hcell).
    destruct (openTextDocument h uri); eauto.
  - rewrite (file_read_fs h raw uri m Hparse Hfs).
    destruct (isWritableFileSystem h (scheme uri)); [|eauto].
    destruct (stat_size h uri) as [size|]; [|eauto].
    destruct (1024 ^ 2 <? size); [eauto|].
    destruct (readFile h uri); eauto.
Qed.

(** A string that [Uri.parse] refuses is not covered by either [try]:
    the handler rejects with the parser's error. *)
Lemma file_read_rejects_when_unparsed h raw err m :
  Uri_parse h raw = Throw err → file_read h raw m = (m, Throw err).
Proof. intros Hparse. unfold file_read. by rewrite Hparse. Qed.

(** C4 at a string [Uri.parse] throws on: the handler's promise rejects,
    so the error reaches the server instead of an empty byte sequence. *)
Theorem file_read_propagates_parse_error :
  file_read local_host "file:////ws/a.go" empty_mem
  = (empty_mem,
     Throw ("[UriError]: If a URI does not contain an authority component, then the "
            +:+ "path cannot begin with two slash characters ("
            +:+ dquote +:+ "//" +:+ dquote +:+ ")")).
Proof. reflexivity. Qed.

Lemma file_read_may_throw : ¬ file_read_never_throws.
Proof.
  intros Hnever.
  destruct (Hnever local_host "file:////ws/a.go" empty_mem) as (m' & bytes & Hrun).
  pose proof (file_read_rejects_when_unparsed local_host "file:////ws/a.go" _ empty_mem
                eq_refl) as Hthrow.
  by rewrite Hthrow in Hrun.
Qed.

(** C5: on the file-system branch, a file whose [stat] size is above
    1048576 bytes is answered with the empty sequence and one warning;
    a file of at most that size is answered with what [readFile]
    delivers. *)
Theorem file_read_size_limit
    (h : Host) (raw : string) (uri : Uri) (size : Z) (m : Mem) :
  Uri_parse h raw = Return uri →
  scheme uri ≠ "vscode-notebook-cell" →
  is_Some (isWritableFileSystem h (scheme uri)) →
  stat_size h uri = Return size →
  (1048576 < size →
     file_read h raw m =
       ({| workspaceState := workspaceState m;
           out := out m ++
             [ConsoleWarn ("IGNORING " +:+ dquote +:+ Uri_toString uri +:+ dquote
                           +:+ " because it is too large (" +:+ pretty size +:+ "bytes)")] |},
        Return [])) ∧
  (size ≤ 1048576 → ∀ data, readFile h uri = Return data →
     file_read h raw m = (m, Return data)).
Proof.
  intros Hparse Hfs [w Hw] Hstat.
  rewrite (file_read_fs h raw uri m Hparse Hfs), Hw, Hstat.
  change (1024 ^ 2) with 1048576.
  split.
  - intros Hbig. by destruct (Z.ltb_spec 1048576 size); [|lia].
  - intros Hsmall data Hread. destruct (Z.ltb_spec 1048576 size); [lia|].
    by rewrite Hread.
Qed.

Lemma file_read_size_limit_witness :
  (file_read local_host "file:///ws/big.bin" empty_mem).2 = Return [] ∧
  length (out (file_read local_host "file:///ws/big.bin" empty_mem).1) = 1%nat ∧
  file_read local_host "file:///ws/a.go" empty_mem
    = (empty_mem, Return (String.list_byte_of_string "package main")).
Proof.
  destruct (file_read_size_limit local_host "file:///ws/big.bin" (file_uri "/ws/big.bin")
              1048577 empty_mem eq_refl) as [Hbig _];
    [done|by eexists|reflexivity|].
  destruct (file_read_size_limit local_host "file:///ws/a.go" (file_uri "/ws/a.go")
              12 empty_mem eq_refl) as [_ Hsmall];
    [done|by eexists|reflexivity|].
  rewrite (Hbig ltac:(lia)), (Hsmall ltac:(lia) _ eq_refl). done.
Defined.

Lemma encode_length (text : string) :
  length (TextEncoder_encode text) = String.length text.
Proof.
  unfold TextEncoder_encode, String.list_byte_of_string. rewrite length_map.
  induction text as [|c text IH]; [done|].
  cbn [String.list_ascii_of_string length String.length]. by rewrite IH.
Qed.

(** C9: a notebook cell that can be opened is answered with the UTF-8
    bytes of its whole text; neither [stat] nor the 1 MiB limit takes
    part, so the answer is as long as the text. *)
Theorem notebook_cell_read_in_full
    (h : Host) (raw : string) (uri : Uri) (text : string) (m : Mem) :
  Uri_parse h raw = Return uri →
  scheme uri = "vscode-notebook-cell" →
  openTextDocument h uri = Return text →
  file_read h raw m = (m, Return (TextEncoder_encode text)) ∧
  length (TextEncoder_encode text) = String.length text.
Proof.
  intros Hparse Hcell Hopen.
  rewrite (file_read_cell h raw uri m Hparse Hcell), Hopen.
  split; [done|]. apply encode_length.
Qed.

Lemma notebook_cell_read_in_full_witness :
  file_read local_host "vscode-notebook-cell:/ws/nb.ipynb" empty_mem
  = (empty_mem, Return (String.list_byte_of_string "print(1)")).
Proof.
  exact (proj1 (notebook_cell_read_in_full local_host "vscode-notebook-cell:/ws/nb.ipynb"
                  cell_uri "print(1)" empty_mem eq_refl eq_refl eq_refl)).
Defined.

(** *** The capability query, [init] and the start of a server, case by case *)

Lemma load_all_true (load : Uri → completion bool) (folders : list Uri) :
  load_all load folders = Return true ↔ ∀ f, f ∈ folders → load f = Return true.
Proof.
  induction folders as [|f folders IH]; cbn [load_all].
  - split; [|done]. intros _ f Hin. by apply not_elem_of_nil in Hin.
  - destruct (load f) as [[]|err] eqn:Hf; cbn [mbind completion_bind negb].
    + rewrite IH. split.
      * intros Hall g [->|Hin]%elem_of_cons; auto.
      * intros Hall g Hin. apply Hall. by apply list_elem_of_further.
    + split; [done|]. intros Hall.
      specialize (Hall f (list_elem_of_here _ _)). congruence.
    + split; [done|]. intros Hall.
      specialize (Hall f (list_elem_of_here _ _)). congruence.
Qed.

(** X6: the capability query answers yes in exactly two situations: a
    workspace without any [vscode-vfs] folder, where the companion
    extension is not even looked at, and a workspace whose companion
    activates, exports [loadWorkspaceContents], and loads every one of
    the [vscode-vfs] folders. *)
Theorem query_answers_yes_iff (h : Host) :
  _canInitWithoutLimits h = Return true ↔
  ∃ folders, workspaceFolders h = Some folders ∧
    (List.filter is_vfs folders = [] ∨
     ∃ ext load,
       _getRemoteHubExtension h = Some ext ∧
       activate ext = Return (Some {| loadWorkspaceContents := Some load |}) ∧
       ∀ f, f ∈ List.filter is_vfs folders → load f = Return true).
Proof.
  unfold _canInitWithoutLimits.
  destruct (workspaceFolders h) as [folders|]; [|split; [done|by intros (? & [=] & _)]].
  destruct (List.filter is_vfs folders) as [|f rest] eqn:Hremote; cbn [length Nat.eqb].
  { split; [eauto|done]. }
  split.
  - intros Hq. exists folders. split; [done|]. right. rewrite Hremote.
    destruct (_getRemoteHubExtension h) as [ext|]; [|done].
    destruct (activate ext) as [[[[load|]]|]|err] eqn:Hact; try done.
    cbn [mbind completion_bind option_bind loadWorkspaceContents] in Hq.
    exists ext, load. split_and!; [done..|]. by apply load_all_true.
  - intros (folders' & [= <-] & [Hnone|(ext & load & -> & -> & Hall)]).
    + by rewrite Hremote in Hnone.
    + cbn [mbind completion_bind option_bind loadWorkspaceContents].
      rewrite Hremote in Hall. by apply load_all_true.
Qed.

(** X7: the folders are loaded in order and the first one that does not
    load decides: a folder that answers no makes the query answer no, a
    folder that throws makes it throw, whatever the folders after it
    would have done. *)
Theorem first_unloadable_folder_decides
    (load : Uri → completion bool) (before after : list Uri) (folder : Uri) :
  (∀ f, f ∈ before → load f = Return true) →
  load folder ≠ Return true →
  load_all load (before ++ folder :: after)
  = match load folder with
    | Return _ => Return false
    | Throw err => Throw err
    end.
Proof.
  intros Hbefore Hfolder.
  induction before as [|f before IH]; cbn [app load_all].
  - destruct (load folder) as [[]|err]; done.
  - rewrite (Hbefore f (list_elem_of_here _ _)). cbn [mbind completion_bind negb].
    apply IH. intros g Hin. apply Hbefore. by apply list_elem_of_further.
Qed.

Lemma first_unloadable_folder_decides_witness :
  load_all (λ f, if String.eqb (path f) "/a" then Return true
                 else if String.eqb (path f) "/b" then Return false
                 else Throw "network")
    ([vfs_uri "/a"] ++ vfs_uri "/b" :: [vfs_uri "/c"])
  = Return false.
Proof.
  apply (first_unloadable_folder_decides
           (λ f, if String.eqb (path f) "/a" then Return true
                 else if String.eqb (path f) "/b" then Return false
                 else Throw "network")
           [vfs_uri "/a"] [vfs_uri "/c"] (vfs_uri "/b")).
  - intros f ->%list_elem_of_singleton. reflexivity.
  - cbn. discriminate.
Defined.

(** X8: [_isRemoteHubWorkspace] holds exactly when one of the three
    companion identifiers is installed and the workspace has folders
    that are all [vscode-vfs] (vacuously so for an empty folder list). *)
Theorem remote_hub_workspace_iff (h : Host) :
  _isRemoteHubWorkspace h = true ↔
  (∃ id, id ∈ remote_ids ∧ is_Some (getExtension h id)) ∧
  ∃ folders, workspaceFolders h = Some folders ∧
             ∀ f, f ∈ folders → scheme f = "vscode-vfs".
Proof.
  unfold _isRemoteHubWorkspace, _getRemoteHubExtension, remote_ids.
  assert (Hall : ∀ folders, forallb is_vfs folders = true ↔
                            ∀ f, f ∈ folders → scheme f = "vscode-vfs").
  { intros folders. rewrite forallb_forall. unfold is_vfs.
    split; intros Hf f Hin.
    - apply String.eqb_eq, Hf. by apply list_elem_of_In.
    - apply String.eqb_eq, Hf. by apply list_elem_of_In. }
  destruct (getExtension h "ms-vscode.remote-repositories") as [e1|] eqn:H1;
    [|destruct (getExtension h "GitHub.remoteHub") as [e2|] eqn:H2;
      [|destruct (getExtension h "GitHub.remoteHub-insiders") as [e3|] eqn:H3]].
  4: { split; [done|]. intros [(id & Hid & [e He]) _].
       repeat (apply elem_of_cons in Hid as [->|Hid]); try congruence.
       by apply not_elem_of_nil in Hid. }
  all: destruct (workspaceFolders h) as [folders|];
       [rewrite Hall|split; [done|by intros [_ (? & [=] & _)]]].
  all: split; [intros Hf; split; [|by eauto]|by intros [_ (? & [= <-] & ?)]].
  - exists "ms-vscode.remote-repositories". split; [apply list_elem_of_here|by rewrite H1].
  - exists "GitHub.remoteHub". split; [do 1 constructor 2; constructor 1|by rewrite H2].
  - exists "GitHub.remoteHub-insiders". split; [do 2 constructor 2; constructor 1|by rewrite H3].
Qed.

(** What [init] does, for any outcome of its three awaits. *)
Lemma init_cases h pattern selector size m :
  0 ≤ size →
  init h pattern selector size m =
    match findFiles h with
    | Throw err => (m, Throw err)
    | Return all =>
        match lift_limit h all size with
        | Throw err => (m, Throw err)
        | Return (cap, hw) =>
            ({| workspaceState := workspaceState m;
                out := out m ++ init_effects h pattern selector all cap hw |},
             sendRequest h (Uri_toString <$> take (Z.min (Z.of_nat (length all)) cap) all))
        end
    end.
Proof.
  intros Hs. destruct (findFiles h) as [all|err] eqn:Hfind.
  - destruct (lift_limit h all size) as [[cap hw]|err] eqn:Hlift.
    + by apply (init_run h pattern selector size all cap hw m).
    + by apply (init_aborts h pattern selector size all err m).
  - unfold init. by rewrite Hfind.
Qed.

(** X9: [init] resolves exactly when file discovery, the capability
    query (where it is made) and the [queue/init] request all succeed,
    and rejects with the first of their errors otherwise. The [init]
    telemetry event and the status item are sent exactly when it
    resolves; when discovery or the query fails, nothing is sent at
    all. *)
Theorem init_reports_only_success
    (h : Host) (pattern : string) (selector : list string) (m : Mem) :
  let run := init h pattern selector (configured_size h) m in
  run.2 = init_outcome h (configured_size h) ∧
  workspaceState run.1 = workspaceState m ∧
  ∃ sent, out run.1 = (out m ++ sent)%list ∧
    ((∃ n i w, TelemetryInit n i w ∈ sent) ↔ run.2 = Return tt) ∧
    ((∃ s c, ShowStatusAndInfo s c ∈ sent) ↔ run.2 = Return tt) ∧
    ((∃ params, SendRequest "queue/init" params ∈ sent) ↔
     ∃ all limit, findFiles h = Return all ∧
                  lift_limit h all (configured_size h) = Return limit).
Proof.
  intros run. subst run.
  rewrite (init_cases h pattern selector (configured_size h) m)
    by (unfold configured_size; lia).
  unfold init_outcome.
  destruct (findFiles h) as [all|err] eqn:Hfind.
  2: { cbn [fst snd mbind completion_bind]. split_and!; [done..|]. exists [].
       rewrite app_nil_r. split; [done|]. split_and!; (split; [|try done]).
       - intros (n & i & w & Hin). by apply not_elem_of_nil in Hin.
       - intros (s & c & Hin). by apply not_elem_of_nil in Hin.
       - intros (p & Hin). by apply not_elem_of_nil in Hin.
       - by intros (all & limit & [=] & _). }
  cbn [mbind completion_bind].
  destruct (lift_limit h all (configured_size h)) as [[cap hw]|err] eqn:Hlift.
  2: { cbn [fst snd]. split_and!; [done..|]. exists [].
       rewrite app_nil_r. split; [done|]. split_and!; (split; [|try done]).
       - intros (n & i & w & Hin). by apply not_elem_of_nil in Hin.
       - intros (s & c & Hin). by apply not_elem_of_nil in Hin.
       - intros (p & Hin). by apply not_elem_of_nil in Hin.
       - intros (all' & limit & [= <-] & Hl). congruence. }
  cbn [fst snd out workspaceState]. split_and!; [done..|].
  exists (init_effects h pattern selector all cap hw). split; [done|].
  unfold init_effects.
  destruct (sendRequest h _) as [[]|err]; split_and!; split.
  - done.
  - intros _. do 3 eexists. apply elem_of_app. right. apply list_elem_of_here.
  - done.
  - intros _. do 2 eexists. apply elem_of_app. right.
    apply list_elem_of_further, list_elem_of_here.
  - eauto.
  - intros _. eexists. apply elem_of_app. left.
    apply list_elem_of_further, list_elem_of_here.
  - intros (n & i & w & Hin). rewrite app_nil_r in Hin.
    apply elem_of_cons in Hin as [[=]|Hin]. by apply list_elem_of_singleton in Hin.
  - done.
  - intros (s & c & Hin). rewrite app_nil_r in Hin.
    apply elem_of_cons in Hin as [[=]|Hin]. by apply list_elem_of_singleton in Hin.
  - done.
  - eauto.
  - intros _. eexists. apply elem_of_app. left.
    apply list_elem_of_further, list_elem_of_here.
Qed.

Lemma take_nonpos {A} (l : list A) (n : Z) : n ≤ 0 → take n l = [].
Proof.
  intros Hn. destruct l as [|x l]; [done|]. cbn [take].
  by destruct (Z.leb_spec n 0); [|lia].
Qed.

(** X10: a [symbolIndexSize] of zero or below is a cap of zero: when
    at most 50 files are found, or more are found and the capability
    query answers no, [init] still sends its [queue/init] request, with
    no file in it, and reports [indexSize = 0]. *)
Theorem nonpositive_cap_submits_nothing
    (h : Host) (pattern : string) (selector : list string) (all : list Uri) (c : Z)
    (m : Mem) :
  symbolIndexSize h = Some c →
  c ≤ 0 →
  findFiles h = Return all →
  Z.of_nat (length all) ≤ 50 ∨ _canInitWithoutLimits h = Return false →
  init h pattern selector (configured_size h) m =
    ({| workspaceState := workspaceState m;
        out := out m ++
          [ ConsoleInfo ("USING 0 of " +:+ pretty (length all) +:+ " files for " +:+ pattern);
            SendRequest "queue/init" [] ]
          ++ match sendRequest h [] with
             | Return _ =>
                 [ TelemetryInit (Z.of_nat (length all)) 0 0;
                   ShowStatusAndInfo selector (_isRemoteHubWorkspace h) ]
             | Throw _ => []
             end |},
     sendRequest h []).
Proof.
  intros Hc Hneg Hfind Hcap.
  assert (Hsize : configured_size h = 0).
  { unfold configured_size. rewrite Hc. cbn. lia. }
  assert (Hlift : lift_limit h all 0 = Return (0, 0)).
  { unfold lift_limit. destruct (Z.ltb_spec 50 (Z.of_nat (length all))); [|done].
    destruct Hcap as [?| ->]; [lia|done]. }
  rewrite Hsize.
  rewrite (init_run h pattern selector 0 all 0 0 m ltac:(lia) Hfind Hlift).
  unfold init_effects.
  rewrite (take_nonpos all (Z.min (Z.of_nat (length all)) 0)) by lia.
  replace (Z.min (Z.of_nat (length all)) 0) with 0 by lia.
  reflexivity.
Qed.

Lemma nonpositive_cap_submits_nothing_witness :
  symbolIndexSize negative_cap_host = Some (-5) ∧
  -5 ≤ 0 ∧
  out (init negative_cap_host "**/*.{go}" ["go"] (configured_size negative_cap_host)
         empty_mem).1
  = [ ConsoleInfo "USING 0 of 3 files for **/*.{go}";
      SendRequest "queue/init" [];
      TelemetryInit 3 0 0;
      ShowStatusAndInfo ["go"] false ].
Proof.
  assert (Hneg : -5 ≤ 0) by lia.
  split; [reflexivity|]. split; [exact Hneg|].
  rewrite (nonpositive_cap_submits_nothing negative_cap_host "**/*.{go}" ["go"]
             ((λ i, file_uri ("/ws/f" +:+ pretty i +:+ ".go")) <$> seq 0 3) (-5)
             empty_mem eq_refl Hneg eq_refl (or_introl ltac:(by vm_compute))).
  reflexivity.
Defined.

(** X11: the hint to enable indexing goes with the status item exactly
    when the cap was not lifted (the query was not made or answered no)
    and the workspace is a remote-repositories one. *)
Theorem command_hint_iff
    (h : Host) (pattern : string) (selector : list string) (all : list Uri) (m : Mem)
    (sent : list effect) (s : list string) (hint : bool) :
  findFiles h = Return all →
  out (init h pattern selector (configured_size h) m).1 = (out m ++ sent)%list →
  ShowStatusAndInfo s hint ∈ sent →
  s = selector ∧
  (hint = true ↔
   _isRemoteHubWorkspace h = true ∧
   (Z.of_nat (length all) ≤ 50 ∨ _canInitWithoutLimits h = Return false)).
Proof.
  intros Hfind Hout Hin.
  rewrite (init_cases h pattern selector (configured_size h) m) in Hout
    by (unfold configured_size; lia).
  rewrite Hfind in Hout.
  destruct (lift_limit h all (configured_size h)) as [[cap hw]|err] eqn:Hlift.
  2: { cbn [fst out] in Hout. rewrite <- (app_nil_r (out m)) in Hout at 1.
       apply app_inv_head in Hout as <-. by apply not_elem_of_nil in Hin. }
  cbn [fst out] in Hout. apply app_inv_head in Hout as <-.
  unfold init_effects in Hin.
  apply elem_of_app in Hin as [Hin|Hin].
  { apply elem_of_cons in Hin as [[=]|Hin]. by apply list_elem_of_singleton in Hin. }
  destruct (sendRequest h _); [|by apply not_elem_of_nil in Hin].
  apply elem_of_cons in Hin as [[=]|Hin].
  apply list_elem_of_singleton in Hin. injection Hin as -> ->.
  split; [done|].
  unfold lift_limit in Hlift.
  destruct (Z.ltb_spec 50 (Z.of_nat (length all))) as [Hbig|Hsmall].
  - destruct (_canInitWithoutLimits h) as [[]|err]; cbn in Hlift; simplify_eq.
    + cbn. split; [done|]. intros [_ [?|[=]]]. lia.
    + cbn [Z.eqb andb]. split; [eauto|by intros [? _]].
  - injection Hlift as <- <-. cbn [Z.eqb andb]. split; [eauto|by intros [? _]].
Qed.

Lemma command_hint_iff_witness :
  findFiles unloadable_host
    = Return ((λ i, file_uri ("/ws/f" +:+ pretty i +:+ ".go")) <$> seq 0 100) ∧
  ShowStatusAndInfo ["go"] true
    ∈ out (init unloadable_host "**/*.{go}" ["go"] (configured_size unloadable_host)
             empty_mem).1 ∧
  _isRemoteHubWorkspace unloadable_host = true.
Proof.
  split; [reflexivity|]. split; [vm_compute; do 3 constructor 2; constructor 1|].
  destruct (command_hint_iff unloadable_host "**/*.{go}" ["go"] _ empty_mem
           [ ConsoleInfo "USING 2 of 100 files for **/*.{go}";
             SendRequest "queue/init" ["file:///ws/f0.go"; "file:///ws/f1.go"];
             TelemetryInit 100 2 0;
             ShowStatusAndInfo ["go"] true ]
           ["go"] true eq_refl) as [_ [Hhint _]].
  - by vm_compute.
  - do 3 constructor 2. constructor 1.
  - by destruct (Hhint eq_refl).
Defined.

(** X12: for a location string that parses, the handler always returns
    bytes, never touches the workspace state and logs at most one
    warning; what it returns is not empty only for a notebook cell
    that opened or for a file of a known scheme, within the size limit,
    that was read, and then nothing is logged. *)
Theorem file_read_graceful_when_parsed
    (h : Host) (raw : string) (uri : Uri) (m : Mem) :
  Uri_parse h raw = Return uri →
  ∃ bytes m',
    file_read h raw m = (m', Return bytes) ∧
    workspaceState m' = workspaceState m ∧
    (out m' = out m ∨ ∃ msg, out m' = (out m ++ [ConsoleWarn msg])%list) ∧
    (bytes ≠ [] →
       out m' = out m ∧
       ((scheme uri = "vscode-notebook-cell" ∧
         ∃ text, openTextDocument h uri = Return text ∧ bytes = TextEncoder_encode text) ∨
        (scheme uri ≠ "vscode-notebook-cell" ∧
         is_Some (isWritableFileSystem h (scheme uri)) ∧
         (∃ size, stat_size h uri = Return size ∧ size ≤ 1048576) ∧
         readFile h uri = Return bytes))).
Proof.
  intros Hparse.
  destruct (decide (scheme uri = "vscode-notebook-cell")) as [Hcell|Hfs].
  - rewrite (file_read_cell h raw uri m Hparse Hcell).
    destruct (openTextDocument h uri) as [text|err].
    + do 2 eexists. split_and!; [done|done|by left|]. intros _. split; [done|]. left. eauto.
    + do 2 eexists. split_and!; [done|done|right; by eexists|done].
  - rewrite (file_read_fs h raw uri m Hparse Hfs).
    destruct (isWritableFileSystem h (scheme uri)) as [w|].
    2: { do 2 eexists. split_and!; [done|done|by left|done]. }
    destruct (stat_size h uri) as [size|err].
    2: { do 2 eexists. split_and!; [done|done|right; by eexists|done]. }
    change (1024 ^ 2) with 1048576.
    destruct (Z.ltb_spec 1048576 size).
    { do 2 eexists. split_and!; [done|done|right; by eexists|done]. }
    destruct (readFile h uri) as [data|err].
    + do 2 eexists. split_and!; [done|done|by left|]. intros _. split; [done|]. right.
      split_and!; eauto.
    + do 2 eexists. split_and!; [done|done|right; by eexists|done].
Qed.

Lemma file_read_graceful_when_parsed_witness :
  Uri_parse local_host "file:///nowhere" = Return (file_uri "/nowhere") ∧
  ∃ bytes m', file_read local_host "file:///nowhere" empty_mem = (m', Return bytes) ∧
              workspaceState m' = workspaceState empty_mem.
Proof.
  split; [reflexivity|].
  destruct (file_read_graceful_when_parsed local_host "file:///nowhere" _ empty_mem eq_refl)
    as (bytes & m' & Hrun & Hws & _).
  eauto.
Defined.

(** The start of a server with a language enabled. *)



(** Joining strings. *)

Lemma string_app_assoc (a b c : string) : (a +:+ b) +:+ c = a +:+ b +:+ c.
Proof.
  induction a as [|x a IH]; [done|].
  change (String x ((a +:+ b) +:+ c) = String x (a +:+ b +:+ c)). by rewrite IH.
Qed.

Lemma join_app (sep : string) (l1 l2 : list string) :
  l1 ≠ [] → l2 ≠ [] →
  String.concat sep (l1 ++ l2) = String.concat sep l1 +:+ sep +:+ String.concat sep l2.
Proof.
  intros H1 H2. induction l1 as [|x [|y l1] IH]; [done| |].
  - destruct l2 as [|z l2]; [done|]. reflexivity.
  - change (String.concat sep ((x :: y :: l1) ++ l2))
      with (x +:+ sep +:+ String.concat sep ((y :: l1) ++ l2)).
    rewrite IH by done.
    change (String.concat sep (x :: y :: l1))
      with (x +:+ sep +:+ String.concat sep (y :: l1)).
    by rewrite !string_app_assoc.
Qed.

Lemma join_join (sep : string) (ls : list (list string)) :
  (∀ l, l ∈ ls → l ≠ []) →
  String.concat sep (String.concat sep <$> ls) = String.concat sep (concat ls).
Proof.
  induction ls as [|l [|l' ls] IH]; intros Hne; [done| |].
  - cbn [fmap list_fmap String.concat concat]. by rewrite app_nil_r.
  - change (String.concat sep (String.concat sep <$> l :: l' :: ls))
      with (String.concat sep l +:+ sep +:+ String.concat sep (String.concat sep <$> l' :: ls)).
    rewrite IH by (intros k Hk; apply Hne; by apply list_elem_of_further).
    change (concat (l :: l' :: ls)) with (l ++ concat (l' :: ls))%list.
    rewrite join_app; [done|apply Hne, list_elem_of_here|].
    cbn [concat]. pose proof (Hne l' ltac:(do 1 constructor 2; constructor 1)).
    by destruct l'.
Qed.

Lemma filter_all_false {A} (f : A → bool) (l : list A) :
  (∀ x, x ∈ l → f x = false) → List.filter f l = [].
Proof.
  induction l as [|x l IH]; intros Hf; [done|]. cbn [List.filter].
  rewrite (Hf x) by apply list_elem_of_here.
  apply IH. intros y Hy. apply Hf. by apply list_elem_of_further.
Qed.

(** X14: the glob pattern used for discovery and watching lists, between
    its braces and separated by commas, the suffixes of the languages
    that have workspace symbols, references or definitions switched on,
    in the languages' order; a language with none of the three
    contributes nothing, and with no such language at all the braces
    are empty. (An indexed language is taken to have a suffix.) *)
Theorem langPattern_lists_indexed_suffixes
    (langs : list (Registry.LanguageInfo * FeatureConfig)) :
  (∀ entry, entry ∈ langs → has_index_feature entry = true →
            Registry.suffixes entry.1 ≠ []) →
  langPattern langs
    = "**/*.{" +:+ String.concat "," (concat (indexed_suffixes langs)) +:+ "}" ∧
  (∀ suffix, suffix ∈ concat (indexed_suffixes langs) ↔
     ∃ entry, entry ∈ langs ∧ suffix ∈ Registry.suffixes entry.1 ∧
              (workspaceSymbols entry.2 = true ∨ references entry.2 = true ∨
               definitions entry.2 = true)) ∧
  ((∀ entry, entry ∈ langs → has_index_feature entry = false) →
   langPattern langs = "**/*.{}").
Proof.
  intros Hne. split_and!.
  - unfold langPattern. fold (indexed_suffixes langs). rewrite join_join; [done|].
    unfold indexed_suffixes. intros l (entry & -> & Hin)%list_elem_of_fmap.
    apply list_elem_of_In, filter_In in Hin as [Hin Hf].
    apply Hne; [by apply list_elem_of_In|done].
  - intros suffix. rewrite list_elem_of_In, in_concat. unfold indexed_suffixes. split.
    + intros (l & Hl & Hs). apply list_elem_of_In, list_elem_of_fmap in Hl as (entry & -> & Hin).
      apply list_elem_of_In, filter_In in Hin as [Hin Hf].
      exists entry. split_and!; [by apply list_elem_of_In..|].
      unfold has_index_feature in Hf.
      destruct (workspaceSymbols entry.2), (references entry.2), (definitions entry.2);
        auto; done.
    + intros (entry & Hin & Hs & Hf). exists (Registry.suffixes entry.1).
      split; [|by apply list_elem_of_In].
      apply list_elem_of_In, list_elem_of_fmap. exists entry. split; [done|].
      apply list_elem_of_In, filter_In. split; [by apply list_elem_of_In|].
      unfold has_index_feature. destruct Hf as [->|[->| ->]]; [done|..].
      * by rewrite orb_true_r.
      * by rewrite orb_true_r.
  - intros Hnone. unfold langPattern.
    rewrite (filter_all_false has_index_feature langs) by done. reflexivity.
Qed.

Lemma langPattern_lists_indexed_suffixes_witness :
  langPattern [c_entry; php_entry; go_entry] = "**/*.{c,i,go}".
Proof.
  destruct (langPattern_lists_indexed_suffixes [c_entry; php_entry; go_entry]) as [-> _].
  - intros entry Hin _.
    repeat (apply elem_of_cons in Hin as [->|Hin]); try done.
    by apply not_elem_of_nil in Hin.
  - reflexivity.
Defined.

End ClientFacts.

(** * The supervisor: restarts on change *)

Module SupervisorFacts.
Import Supervisor.

(** All-settled semantics: a rejected promise among the old handles
    does not keep a fulfilled one from being disposed. *)
Lemma fulfilled_handles_disposed (outcome : gmap handle status) (hs : list handle) (h : handle) :
  h ∈ hs → outcome !! h = Some fulfilled → Disposed h ∈ dispose_fulfilled outcome hs.
Proof.
  intros Hin Hok. unfold dispose_fulfilled.
  apply list_elem_of_omap. exists h. by rewrite Hok.
Qed.

Lemma rejected_handles_skipped (outcome : gmap handle status) (hs : list handle) (h : handle) :
  Disposed h ∈ dispose_fulfilled outcome hs → h ∈ hs ∧ outcome !! h = Some fulfilled.
Proof.
  unfold dispose_fulfilled. intros (h' & Hin & Hd)%list_elem_of_omap.
  destruct (outcome !! h') as [[]|] eqn:Ho; simplify_eq. done.
Qed.

(** A listener continues only when everything it took has settled, and
    then disposes before it starts. *)
Lemma resume_disposes_then_starts (st st' : State) (i : nat) :
  step st (Resume i) = Some st' →
  ∃ t, parked st !! i = Some t ∧
       all_settled (settled st) (oldHandles t) = true ∧
       trace st' = (trace st ++ dispose_fulfilled (settled st) (oldHandles t)
                    ++ (if restart t then [Started (calls st)] else []))%list.
Proof.
  cbn [step]. destruct (parked st !! i) as [t|] eqn:Ht; [|done]. cbn [mbind option_bind].
  destruct (all_settled _ _) eqn:Hall; [|done]. intros [= <-].
  exists t. split_and!; [done..|].
  unfold stopServers_leave, unpark. cbn [restart calls settled trace].
  destruct (restart t); cbn [startServer trace calls].
  - by rewrite <- app_assoc.
  - by rewrite app_nil_r.
Qed.

Section Alone.

(** How each [_startServer] promise settles. *)
Variable outcome : nat → status.

Lemma startClient_quiet : quiet outcome 0 startClient.
Proof.
  unfold quiet, startClient, startServer.
  cbn [serverHandles calls parked settled trace app].
  split_and!; try done.
  - by left.
  - intros h Hh. lia.
  - intros h. split.
    + by intros [=]%list_elem_of_singleton.
    + intros [Hh _]. lia.
Qed.

(** One [stopServers] call handled alone, for the listener
    ([continue]) or on deactivation: its handle settles, if it has not
    yet, and is disposed if it came up; the listener then starts the
    next server. *)
Lemma stop_alone_quiet (continue : bool) (st : State) (n : nat) :
  quiet outcome n st →
  run st ((if continue then Change else Deactivate)
          :: settle_all outcome (pending_handles st) ++ [Resume (length (parked st))])
  = Some (if continue then startServer (stopped outcome n st) else stopped outcome n st).
Proof.
  destruct st as [hs c s p t]. unfold quiet, pending_handles, stopped.
  cbn [serverHandles calls parked settled trace].
  intros (-> & -> & -> & Hn & Hold & Hnew & Hdis).
  cbn [List.filter length].
  destruct Hn as [Hn|Hn]; rewrite Hn.
  - rewrite bool_decide_eq_true_2 by done.
    destruct continue;
      cbn [settle_all fmap list_fmap app run step stopServers_enter mbind option_bind
           serverHandles calls parked settled trace];
      rewrite Hn, !bool_decide_eq_true_2 by (done || lia);
      cbn [andb mbind option_bind run step parked lookup list_lookup app oldHandles
           all_settled forallb settled];
      rewrite lookup_insert_eq, bool_decide_eq_true_2 by eauto;
      cbn [andb mbind option_bind]; f_equal;
      unfold stopServers_leave, unpark, startServer, dispose_fulfilled;
      cbn [restart oldHandles serverHandles calls settled parked trace omap list_omap
           delete list_delete app];
      rewrite lookup_insert_eq; by destruct (outcome n).
  - rewrite bool_decide_eq_false_2 by done.
    rewrite (insert_id s n (outcome n) Hn).
    destruct continue;
      cbn [settle_all fmap list_fmap app run step stopServers_enter mbind option_bind
           serverHandles calls parked settled trace lookup list_lookup oldHandles
           all_settled forallb];
      rewrite Hn, bool_decide_eq_true_2 by eauto;
      cbn [andb mbind option_bind]; f_equal;
      unfold stopServers_leave, unpark, startServer, dispose_fulfilled;
      cbn [stopServers_enter restart oldHandles serverHandles calls settled parked trace
           omap list_omap delete list_delete app];
      rewrite Hn; by destruct (outcome n).
Qed.

(** The current server settles while nothing else happens. *)
Lemma settle_current_quiet (st : State) (n : nat) :
  quiet outcome n st →
  ∃ st', settle_current outcome st = Some st' ∧ quiet outcome n st' ∧
         settled st' !! n = Some (outcome n).
Proof.
  destruct st as [hs c s p t]. unfold quiet, settle_current, pending_handles.
  cbn [serverHandles calls parked settled trace].
  intros (-> & -> & -> & Hn & Hold & Hnew & Hdis).
  cbn [List.filter]. destruct Hn as [Hn|Hn]; rewrite Hn.
  - rewrite bool_decide_eq_true_2 by done.
    cbn [settle_all fmap list_fmap run step calls settled].
    rewrite Hn, !bool_decide_eq_true_2 by (done || lia).
    cbn [andb mbind option_bind]. eexists. split; [done|].
    cbn [serverHandles calls parked settled trace].
    rewrite lookup_insert_eq. split_and!; try done.
    + by right.
    + intros h Hh. rewrite lookup_insert_ne by lia. by apply Hold.
    + intros h Hh. rewrite lookup_insert_ne by lia. by apply Hnew.
  - rewrite bool_decide_eq_false_2 by done.
    cbn [settle_all fmap list_fmap run]. eexists. split; [done|].
    cbn [serverHandles calls parked settled trace]. split_and!; try done. by right.
Qed.

(** One change handled alone: the old server is disposed if it came
    up, and the next one is started. *)
Lemma restart_alone_quiet (st : State) (n : nat) :
  quiet outcome n st →
  ∃ st', restart_alone outcome st = Some st' ∧ quiet outcome (S n) st'.
Proof.
  intros Hq. exists (startServer (stopped outcome n st)). split.
  { exact (stop_alone_quiet true st n Hq). }
  destruct Hq as (Hh & Hc & Hp & Hn & Hold & Hnew & Hdis).
  unfold quiet, startServer, stopped.
  cbn [serverHandles calls parked settled trace app].
  split_and!; try done.
  - left. rewrite lookup_insert_ne by lia. apply Hnew. lia.
  - intros h Hlt. destruct (decide (h = n)) as [->|Hne].
    + apply lookup_insert_eq.
    + rewrite lookup_insert_ne by done. apply Hold. lia.
  - intros h Hlt. rewrite lookup_insert_ne by lia. apply Hnew. lia.
  - intros h. rewrite !elem_of_app, Hdis. split.
    + intros [[[Hlt Hok]|Hin]|Hin].
      * split; [lia|done].
      * destruct (outcome n) eqn:Hon; [|by apply not_elem_of_nil in Hin].
        apply list_elem_of_singleton in Hin. injection Hin as ->. split; [lia|done].
      * by apply list_elem_of_singleton in Hin.
    + intros [Hlt Hok]. left. destruct (decide (h = n)) as [->|Hne].
      * right. rewrite Hok. apply list_elem_of_here.
      * left. split; [lia|done].
Qed.

(** Deactivation handled alone: the last server is disposed if it came
    up, and nothing is started. *)
Lemma deactivate_alone_quiet (st : State) (n : nat) :
  quiet outcome n st →
  ∃ st', deactivate_alone outcome st = Some st' ∧
         serverHandles st' = [] ∧ parked st' = [] ∧ calls st' = S n ∧
         ∀ h, Disposed h ∈ trace st' ↔ (h ≤ n)%nat ∧ outcome h = fulfilled.
Proof.
  intros Hq. exists (stopped outcome n st). split.
  { exact (stop_alone_quiet false st n Hq). }
  destruct Hq as (Hh & Hc & Hp & Hn & Hold & Hnew & Hdis).
  unfold stopped. cbn [serverHandles calls parked settled trace].
  split_and!; try done.
  intros h. rewrite elem_of_app, Hdis. split.
  - intros [[Hlt Hok]|Hin].
    + split; [lia|done].
    + destruct (outcome n) eqn:Hon; [|by apply not_elem_of_nil in Hin].
      apply list_elem_of_singleton in Hin. injection Hin as ->. split; [lia|done].
  - intros [Hle Hok]. destruct (decide (h = n)) as [->|Hne].
    + right. rewrite Hok. apply list_elem_of_here.
    + left. split; [lia|done].
Qed.

Lemma orderly_restarts_quiet (early : list bool) : ∀ (st : State) (k : nat),
  quiet outcome k st →
  ∃ st', orderly_restarts outcome early st = Some st' ∧
         quiet outcome (length early + k) st'.
Proof.
  induction early as [|b early IH]; intros st k Hst; [by exists st|].
  cbn [orderly_restarts length].
  assert (∃ st1, (if b then settle_current outcome st else Some st) = Some st1 ∧
                 quiet outcome k st1) as (st1 & -> & Hst1).
  { destruct b; [|by exists st].
    destruct (settle_current_quiet st k Hst) as (st1 & ? & ? & _). by exists st1. }
  cbn [mbind option_bind].
  destruct (restart_alone_quiet st1 k Hst1) as (st2 & -> & Hst2).
  cbn [mbind option_bind].
  destruct (IH st2 (S k) Hst2) as (st' & Hrun & Hst').
  exists st'. split; [done|].
  by replace (S (length early) + k)%nat with (length early + S k)%nat by lia.
Qed.

(** Which starts have not been disposed, by what has been disposed. *)
Lemma live_by_disposed (st : State) (k : nat) :
  calls st = k →
  (∀ h, (h < k)%nat → Disposed h ∈ trace st ↔ outcome h = fulfilled) →
  live st = failed outcome k.
Proof.
  intros Hc Hdis. unfold live, failed. rewrite Hc.
  apply List.filter_ext_in. intros h Hin.
  apply in_seq in Hin. unfold is_live.
  destruct (outcome h) eqn:Hoh.
  - rewrite bool_decide_eq_false_2, bool_decide_eq_false_2; [done|done|].
    intros Hnot. apply Hnot, Hdis; [lia|done].
  - rewrite bool_decide_eq_true_2, bool_decide_eq_true_2; [done|done|].
    intros Hd. apply Hdis in Hd; [congruence|lia].
Qed.

Lemma quiet_live (st : State) (n : nat) :
  quiet outcome n st → live st = (failed outcome n ++ [n])%list.
Proof.
  intros (Hh & Hc & Hp & Hn & Hold & Hnew & Hdis).
  unfold live, failed. rewrite Hc, seq_S, List.filter_app.
  cbn [List.filter Nat.add]. f_equal.
  - apply List.filter_ext_in. intros h Hin. apply in_seq in Hin. unfold is_live.
    destruct (outcome h) eqn:Hoh.
    + rewrite bool_decide_eq_false_2, bool_decide_eq_false_2; [done|done|].
      intros Hnot. apply Hnot, Hdis. split; [lia|done].
    + rewrite bool_decide_eq_true_2, bool_decide_eq_true_2; [done|done|].
      intros Hd. apply Hdis in Hd as [_ Hd]. congruence.
  - unfold is_live. rewrite bool_decide_eq_true_2; [done|].
    intros Hd. apply Hdis in Hd as [Hd _]. lia.
Qed.

(** When no change arrives while another is being handled, every
    series of restarts runs to its end and leaves exactly one current
    handle; what has not been disposed is that handle and the starts
    that failed. *)
Lemma restarts_alone_one_server (n : nat) :
  ∃ st, restarts_alone outcome n startClient = Some st ∧
        serverHandles st = [n] ∧ parked st = [] ∧
        live st = (failed outcome n ++ [n])%list.
Proof.
  assert (Hgen : ∀ k st, quiet outcome k st →
            ∃ st', restarts_alone outcome n st = Some st' ∧ quiet outcome (n + k) st').
  { induction n as [|n IH]; intros k st Hst; [by exists st|].
    cbn [restarts_alone].
    destruct (restart_alone_quiet st k Hst) as (st1 & -> & Hst1).
    cbn [mbind option_bind].
    destruct (IH (S k) st1 Hst1) as (st' & Hrun & Hst').
    exists st'. split; [done|]. by replace (S n + k)%nat with (n + S k)%nat by lia. }
  destruct (Hgen 0%nat startClient startClient_quiet) as (st & Hrun & Hst).
  rewrite Nat.add_0_r in Hst.
  exists st. split; [done|].
  pose proof (quiet_live st n Hst).
  destruct Hst as (? & ? & ? & _). done.
Qed.

End Alone.

(** C3 at two changes that overlap: the first listener waits for the
    server that is still starting, the second has nothing to wait for,
    starts server 1 and finishes; when server 0 is up at last, the
    first listener disposes it and starts server 2. Both listeners are
    done, two handles are current, two servers are up, and server 1
    was started before server 0 was stopped. *)
Theorem overlapping_changes_leave_two_servers :
  (λ st, (serverHandles st, parked st, live st, trace st))
    <$> run startClient overlapping_changes
  = Some ([1; 2]%nat, [], [1; 2]%nat,
          [Started 0%nat; Started 1%nat; Disposed 0%nat; Started 2%nat]).
Proof. by vm_compute. Qed.

(** The same with the first server already up when both changes arrive
    in one turn. *)
Example changes_in_one_turn_leave_two_servers :
  (λ st, (serverHandles st, parked st, live st))
    <$> run startClient
          [Settle 0%nat fulfilled; Change; Change; Resume 1%nat; Resume 0%nat]
  = Some ([1; 2]%nat, [], [1; 2]%nat).
Proof. by vm_compute. Qed.

(** *** Any interleaving: ownership, counting, shutdown *)

Lemma owned_enter continue st :
  owned (stopServers_enter continue st) ≡ₚ owned st.
Proof.
  unfold owned, stopServers_enter. cbn [serverHandles parked app].
  rewrite fmap_app, concat_app. cbn [fmap list_fmap concat oldHandles].
  rewrite app_nil_r. apply Permutation_app_comm.
Qed.

Lemma dispose_fulfilled_elem (outcome : gmap nat status) (hs : list nat) (h : nat) :
  Disposed h ∈ dispose_fulfilled outcome hs ↔ h ∈ hs ∧ outcome !! h = Some fulfilled.
Proof.
  unfold dispose_fulfilled. rewrite list_elem_of_omap. split.
  - intros (h' & Hin & Hd). destruct (outcome !! h') as [[]|] eqn:Ho; by simplify_eq.
  - intros [Hin Ho]. exists h. by rewrite Ho.
Qed.

Lemma dispose_fulfilled_started (outcome : gmap nat status) (hs : list nat) (h : nat) :
  Started h ∉ dispose_fulfilled outcome hs.
Proof.
  unfold dispose_fulfilled. rewrite list_elem_of_omap.
  intros (h' & _ & Hd). by destruct (outcome !! h') as [[]|].
Qed.

Lemma dispose_fulfilled_NoDup (outcome : gmap nat status) (hs : list nat) :
  NoDup hs → NoDup (dispose_fulfilled outcome hs).
Proof.
  induction 1 as [|h hs Hh Hhs IH]; [constructor|].
  unfold dispose_fulfilled. cbn [omap list_omap].
  destruct (outcome !! h) as [[]|]; try exact IH.
  constructor; [|exact IH].
  intros Hin. apply dispose_fulfilled_elem in Hin as [Hin _]. done.
Qed.

(** The handles of the [i]-th parked call, against everything else. *)
Lemma owned_split st i t :
  parked st !! i = Some t →
  owned st ≡ₚ oldHandles t ++ owned (unpark i st).
Proof.
  intros Ht. unfold owned, unpark. cbn [serverHandles parked].
  rewrite <- (take_drop_middle _ _ _ Ht) at 1.
  rewrite delete_take_drop, !fmap_app, !concat_app, fmap_cons, concat_cons.
  rewrite (Permutation_app_swap_app (concat _) (oldHandles t)).
  by rewrite Permutation_app_swap_app.
Qed.

Lemma step_well_owned st l st' :
  well_owned st → step st l = Some st' → well_owned st'.
Proof.
  intros (Hnd & Htr & Hown & Hdis & Hst & Hts) Hstep.
  destruct l as [| |h s|i]; cbn [step] in Hstep.
  - injection Hstep as <-. unfold well_owned. cbn [stopServers_enter trace calls settled].
    split_and!; try done.
    + by rewrite owned_enter.
    + intros h Hin. rewrite owned_enter in Hin. by apply Hown.
  - injection Hstep as <-. unfold well_owned. cbn [stopServers_enter trace calls settled].
    split_and!; try done.
    + by rewrite owned_enter.
    + intros h Hin. rewrite owned_enter in Hin. by apply Hown.
  - destruct (bool_decide (h < calls st)%nat && bool_decide (settled st !! h = None))
      eqn:Hok; [|done].
    injection Hstep as <-.
    apply andb_true_iff in Hok as [_ Hnone%bool_decide_eq_true].
    unfold well_owned, owned in *. cbn [serverHandles parked trace calls settled].
    split_and!; try done.
    intros h' Hd. destruct (Hdis h' Hd) as [Hlt Hs]. split; [done|].
    rewrite lookup_insert_ne; [done|]. intros ->. congruence.
  - destruct (parked st !! i) as [t|] eqn:Ht; [|done]. cbn [mbind option_bind] in Hstep.
    destruct (all_settled _ _) eqn:Hall; [|done]. injection Hstep as <-.
    pose proof (owned_split st i t Ht) as Hsplit.
    assert (Hnd' : NoDup (oldHandles t ++ owned (unpark i st))) by by rewrite <- Hsplit.
    apply NoDup_app in Hnd' as (Hndt & Hdisj & Hndr).
    assert (Hrest : ∀ h, h ∈ owned (unpark i st) → h ∈ owned st).
    { intros h Hin. rewrite Hsplit. apply elem_of_app. by right. }
    assert (Htaken : ∀ h, h ∈ oldHandles t → h ∈ owned st).
    { intros h Hin. rewrite Hsplit. apply elem_of_app. by left. }
    set (disposed := dispose_fulfilled (settled st) (oldHandles t)).
    assert (Htr' : NoDup (trace st ++ disposed)).
    { apply NoDup_app. split_and!; [done| |by apply dispose_fulfilled_NoDup].
      intros e Hin Hin'. destruct e as [h|h].
      - by apply dispose_fulfilled_started in Hin'.
      - apply dispose_fulfilled_elem in Hin' as [Hin' _].
        by destruct (Hown h (Htaken h Hin')). }
    unfold stopServers_leave. destruct (restart t).
    + unfold well_owned, owned, startServer, unpark in *.
      cbn [serverHandles parked trace calls settled] in *.
      split_and!.
      * rewrite <- (assoc_L (++)). rewrite (Permutation_app_swap_app (serverHandles st)).
        cbn [app]. constructor; [|done].
        intros Hin. destruct (Hown _ (Hrest _ Hin)). lia.
      * apply NoDup_app. split_and!; [done| |apply NoDup_singleton].
        intros e Hin ->%list_elem_of_singleton.
        apply elem_of_app in Hin as [Hin|Hin].
        -- apply Hst in Hin. lia.
        -- by apply dispose_fulfilled_started in Hin.
      * intros h Hin. rewrite <- (assoc_L (++)) in Hin.
        rewrite (Permutation_app_swap_app (serverHandles st)) in Hin.
        apply elem_of_cons in Hin as [->|Hin].
        -- split; [lia|]. rewrite !elem_of_app.
           intros [[Hd|Hd]|Hd].
           ++ apply Hdis in Hd. lia.
           ++ apply dispose_fulfilled_elem in Hd as [Hd _].
              destruct (Hown _ (Htaken _ Hd)). lia.
           ++ by apply list_elem_of_singleton in Hd.
        -- destruct (Hown _ (Hrest _ Hin)) as [Hlt Hnot]. split; [lia|].
           rewrite !elem_of_app. intros [[Hd|Hd]|Hd]; [done| |].
           ++ apply dispose_fulfilled_elem in Hd as [Hd _]. by apply (Hdisj h).
           ++ by apply list_elem_of_singleton in Hd.
      * intros h. rewrite !elem_of_app. intros [[Hd|Hd]|Hd].
        -- destruct (Hdis h Hd). split; [lia|done].
        -- apply dispose_fulfilled_elem in Hd as [Hd Hs].
           destruct (Hown _ (Htaken _ Hd)). split; [lia|done].
        -- by apply list_elem_of_singleton in Hd.
      * intros h. rewrite !elem_of_app. intros [[Hd|Hd]|Hd].
        -- apply Hst in Hd. lia.
        -- by apply dispose_fulfilled_started in Hd.
        -- apply list_elem_of_singleton in Hd. injection Hd as ->. lia.
      * intros h Hlt. rewrite !elem_of_app.
        destruct (decide (h = calls st)) as [->|Hne].
        -- right. apply list_elem_of_here.
        -- left. left. apply Hts. lia.
    + unfold well_owned, owned, unpark in *.
      cbn [serverHandles parked trace calls settled] in *.
      split_and!; try done.
      * intros h Hin. destruct (Hown _ (Hrest _ Hin)) as [Hlt Hnot]. split; [done|].
        rewrite elem_of_app. intros [Hd|Hd]; [done|].
        apply dispose_fulfilled_elem in Hd as [Hd _]. by apply (Hdisj h).
      * intros h. rewrite elem_of_app. intros [Hd|Hd]; [by apply Hdis|].
        apply dispose_fulfilled_elem in Hd as [Hd Hs].
        by destruct (Hown _ (Htaken _ Hd)).
      * intros h. rewrite elem_of_app. intros [Hd|Hd]; [by apply Hst|].
        by apply dispose_fulfilled_started in Hd.
      * intros h Hlt. rewrite elem_of_app. left. by apply Hts.
Qed.

Lemma run_well_owned ls : ∀ st st',
  well_owned st → run st ls = Some st' → well_owned st'.
Proof.
  induction ls as [|l ls IH]; intros st st' Hst; cbn [run].
  - by intros [= <-].
  - destruct (step st l) as [st1|] eqn:Hstep; [|done]. cbn [mbind option_bind].
    apply IH. by eapply step_well_owned.
Qed.

Lemma startClient_well_owned : well_owned startClient.
Proof.
  unfold well_owned, owned, startClient, startServer.
  cbn [serverHandles parked trace calls settled app fmap list_fmap concat].
  split_and!.
  - apply NoDup_singleton.
  - apply NoDup_singleton.
  - intros h ->%list_elem_of_singleton. split; [lia|].
    by intros [=]%list_elem_of_singleton.
  - by intros h [=]%list_elem_of_singleton.
  - intros h [= ->]%list_elem_of_singleton. lia.
  - intros h Hlt. replace h with 0%nat by lia. apply list_elem_of_here.
Qed.

(** X15: whatever the order in which notifications arrive, promises
    settle and listeners continue, no handle is started or disposed
    twice, no handle is held by two parties, and a handle that has been
    disposed had come up (its promise fulfilled), was started before
    and is no longer held by anybody. *)
Theorem handles_disposed_once (ls : list label) (st : State) :
  run startClient ls = Some st →
  NoDup (trace st) ∧
  NoDup (owned st) ∧
  (∀ h, Disposed h ∈ trace st →
        Started h ∈ trace st ∧ settled st !! h = Some fulfilled ∧ h ∉ owned st) ∧
  (∀ h, h ∈ owned st → Started h ∈ trace st).
Proof.
  intros Hrun.
  destruct (run_well_owned ls _ _ startClient_well_owned Hrun)
    as (Hnd & Htr & Hown & Hdis & Hst & Hts).
  split_and!; [done..| |].
  - intros h Hd. destruct (Hdis h Hd) as [Hlt Hs]. split_and!; [by apply Hts|done|].
    intros Hin. by destruct (Hown h Hin).
  - intros h Hin. apply Hts. by destruct (Hown h Hin).
Qed.

Lemma handles_disposed_once_witness :
  run startClient overlapping_changes
  = Some {| serverHandles := [1; 2]%nat; calls := 3; settled := {[0%nat := fulfilled]};
            parked := [];
            trace := [Started 0%nat; Started 1%nat; Disposed 0%nat; Started 2%nat] |} ∧
  NoDup [Started 0%nat; Started 1%nat; Disposed 0%nat; Started 2%nat].
Proof.
  assert (Hrun : run startClient overlapping_changes
    = Some {| serverHandles := [1; 2]%nat; calls := 3; settled := {[0%nat := fulfilled]};
              parked := [];
              trace := [Started 0%nat; Started 1%nat; Disposed 0%nat; Started 2%nat] |})
    by (by vm_compute).
  split; [exact Hrun|].
  exact (proj1 (handles_disposed_once _ _ Hrun)).
Defined.

(** Counting starts. *)

Lemma restarts_split (ps : list pending) (i : nat) (t : pending) :
  ps !! i = Some t →
  length (List.filter restart ps)
  = ((if restart t then 1 else 0) + length (List.filter restart (delete i ps)))%nat.
Proof.
  intros Ht. rewrite <- (take_drop_middle _ _ _ Ht) at 1.
  rewrite delete_take_drop, !List.filter_app, !length_app. cbn [List.filter].
  destruct (restart t); cbn [length]; lia.
Qed.

Lemma step_counts st l st' :
  step st l = Some st' →
  (calls st' + restarts_parked st'
   = calls st + restarts_parked st + (if is_change l then 1 else 0))%nat.
Proof.
  unfold restarts_parked.
  destruct l as [| |h s|i]; cbn [step is_change].
  - intros [= <-]. cbn [stopServers_enter calls parked].
    rewrite List.filter_app, length_app. cbn [List.filter restart length]. lia.
  - intros [= <-]. cbn [stopServers_enter calls parked].
    rewrite List.filter_app, length_app. cbn [List.filter restart length]. lia.
  - destruct (_ && _); [|done]. intros [= <-]. cbn [calls parked]. lia.
  - destruct (parked st !! i) as [t|] eqn:Ht; [|done]. cbn [mbind option_bind].
    destruct (all_settled _ _); [|done]. intros [= <-].
    rewrite (restarts_split _ _ _ Ht). unfold stopServers_leave, unpark.
    destruct (restart t); cbn [startServer calls parked]; lia.
Qed.

Lemma run_counts ls : ∀ st st',
  run st ls = Some st' →
  (calls st' + restarts_parked st'
   = calls st + restarts_parked st + length (List.filter is_change ls))%nat.
Proof.
  induction ls as [|l ls IH]; intros st st'; cbn [run List.filter].
  - intros [= <-]. cbn [length]. lia.
  - destruct (step st l) as [st1|] eqn:Hstep; [|done]. cbn [mbind option_bind].
    intros Hrun. rewrite (IH _ _ Hrun), (step_counts _ _ _ Hstep).
    destruct (is_change l); cbn [length]; lia.
Qed.

(** X16: restarts are neither coalesced nor dropped: at any moment the
    servers started so far and the listeners still parked before their
    [startServer()] add up to one more than the change notifications
    received; once every listener has continued, [N] changes have
    started [N + 1] servers in all. *)
Theorem every_change_starts_a_server (ls : list label) (st : State) :
  run startClient ls = Some st →
  (calls st + restarts_parked st = 1 + length (List.filter is_change ls))%nat ∧
  (∀ h, Started h ∈ trace st ↔ (h < calls st)%nat).
Proof.
  intros Hrun. split.
  - rewrite (run_counts ls _ _ Hrun). reflexivity.
  - destruct (run_well_owned ls _ _ startClient_well_owned Hrun)
      as (_ & _ & _ & _ & Hst & Hts).
    intros h. split; [apply Hst|apply Hts].
Qed.

Lemma every_change_starts_a_server_witness :
  run startClient overlapping_changes
  = Some {| serverHandles := [1; 2]%nat; calls := 3; settled := {[0%nat := fulfilled]};
            parked := [];
            trace := [Started 0%nat; Started 1%nat; Disposed 0%nat; Started 2%nat] |} ∧
  (3 + 0 = 1 + 2)%nat.
Proof.
  assert (Hrun : run startClient overlapping_changes
    = Some {| serverHandles := [1; 2]%nat; calls := 3; settled := {[0%nat := fulfilled]};
              parked := [];
              trace := [Started 0%nat; Started 1%nat; Disposed 0%nat; Started 2%nat] |})
    by (by vm_compute).
  split; [exact Hrun|].
  exact (proj1 (every_change_starts_a_server _ _ Hrun)).
Defined.

(** X17: a listener continues only when every handle it took has
    settled, and then disposes exactly those that came up: one failed
    start does not keep the others from being disposed. *)
Theorem stop_disposes_the_fulfilled
    (ls : list label) (st st' : State) (i : nat) (t : pending) :
  run startClient ls = Some st →
  parked st !! i = Some t →
  step st (Resume i) = Some st' →
  ∀ h, h ∈ oldHandles t →
       is_Some (settled st !! h) ∧
       (Disposed h ∈ trace st' ↔ settled st !! h = Some fulfilled).
Proof.
  intros Hrun Ht Hstep h Hin.
  destruct (run_well_owned ls _ _ startClient_well_owned Hrun)
    as (_ & _ & Hown & _ & _ & _).
  destruct (resume_disposes_then_starts st st' i Hstep) as (t' & Ht' & Hall & Htrace).
  rewrite Ht in Ht'. injection Ht' as <-.
  split.
  - unfold all_settled in Hall. rewrite forallb_forall in Hall.
    apply list_elem_of_In, Hall, bool_decide_eq_true in Hin. done.
  - assert (Hnot : Disposed h ∉ trace st).
    { apply (Hown h). unfold owned. apply elem_of_app. right.
      apply list_elem_of_In, in_concat. exists (oldHandles t).
      split; [|by apply list_elem_of_In].
      apply list_elem_of_In, list_elem_of_fmap. exists t. split; [done|].
      by eapply list_elem_of_lookup_2. }
    rewrite Htrace, !elem_of_app, dispose_fulfilled_elem. split.
    + intros [Hd|[[_ Hs]|Hd]]; [done|done|].
      destruct (restart t); [by apply list_elem_of_singleton in Hd|by apply not_elem_of_nil in Hd].
    + intros Hs. right. left. done.
Qed.

Lemma stop_disposes_the_fulfilled_witness :
  is_Some (({[0%nat := fulfilled]} : gmap nat status) !! 0%nat) ∧
  (Disposed 0%nat ∈ [Started 0%nat; Disposed 0%nat; Started 1%nat] ↔
   ({[0%nat := fulfilled]} : gmap nat status) !! 0%nat = Some fulfilled).
Proof.
  exact (stop_disposes_the_fulfilled
           [Change; Settle 0%nat fulfilled]
           {| serverHandles := []; calls := 1; settled := {[0%nat := fulfilled]};
              parked := [{| oldHandles := [0%nat]; restart := true |}];
              trace := [Started 0%nat] |}
           {| serverHandles := [1%nat]; calls := 2; settled := {[0%nat := fulfilled]};
              parked := [];
              trace := [Started 0%nat; Disposed 0%nat; Started 1%nat] |}
           0%nat {| oldHandles := [0%nat]; restart := true |}
           ltac:(by vm_compute) eq_refl ltac:(by vm_compute)
           0%nat ltac:(apply list_elem_of_here)).
Defined.

(** X18: when no change arrives while another is being handled,
    whether the running server had settled before the change came or
    settles only while the listener waits, any number of restarts,
    each start coming up or failing, leaves exactly one current handle
    and no parked call; every earlier server that came up has been
    disposed, and what has not been disposed is the current server and
    the starts that failed. Deactivation then leaves no handle and no
    parked call and disposes the last server if it came up; a start
    that failed is never disposed. *)
Theorem orderly_restarts_and_shutdown
    (outcome : nat → status) (early : list bool) (last : bool) :
  let n := length early in
  ∃ st st',
    orderly_restarts outcome early startClient = Some st ∧
    serverHandles st = [n] ∧ parked st = [] ∧
    live st = (failed outcome n ++ [n])%list ∧
    orderly_shutdown outcome last st = Some st' ∧
    serverHandles st' = [] ∧ parked st' = [] ∧
    live st' = failed outcome (S n) ∧
    ∀ h, Disposed h ∈ trace st' ↔ (h ≤ n)%nat ∧ outcome h = fulfilled.
Proof.
  intros n.
  destruct (orderly_restarts_quiet outcome early startClient 0%nat
              (startClient_quiet outcome)) as (st & Hrun & Hst).
  rewrite Nat.add_0_r in Hst. fold n in Hst.
  assert (∃ st1, (if last then settle_current outcome st else Some st) = Some st1 ∧
                 quiet outcome n st1) as (st1 & Hlast & Hst1).
  { destruct last; [|by exists st].
    destruct (settle_current_quiet outcome st n Hst) as (st1 & ? & ? & _). by exists st1. }
  destruct (deactivate_alone_quiet outcome st1 n Hst1) as (st' & Hdown & Hh' & Hp' & Hc' & Hd').
  exists st, st'. pose proof (quiet_live outcome st n Hst) as Hlive.
  destruct Hst as (Hh & Hc & Hp & _).
  split_and!; try done.
  - unfold orderly_shutdown. rewrite Hlast. cbn [mbind option_bind]. exact Hdown.
  - apply (live_by_disposed outcome st' (S n) Hc').
    intros h Hlt. rewrite Hd'. split; [tauto|]. intros Hok. split; [lia|done].
Qed.

(** Three starts of which the second fails: the server is up when the
    first change arrives, the third start settles only when the
    extension is deactivated. The failed start is the one thing never
    disposed. *)
Example orderly_run_with_a_failed_start :
  let outcome := λ h : nat, if (h =? 1)%nat then rejected else fulfilled in
  (λ st, (serverHandles st, parked st, live st, trace st))
    <$> (orderly_restarts outcome [true; false] startClient
         ≫= orderly_shutdown outcome false)
  = Some ([], [], [1%nat],
          [Started 0%nat; Disposed 0%nat; Started 1%nat; Started 2%nat; Disposed 2%nat]).
Proof. by vm_compute. Qed.

End SupervisorFacts.
